(** * openai-fetch: a shallow embedding of the fetch adapter and the client

    The development follows the two TypeScript sources:
    - [fetch-api]   ([createApiInstance], [extend], [post], [parseHeaders],
                     [safeJson], the [beforeError] hook),
    - [openai-client.ts] ([OpenAIClient], [getApi] and one method per
                     endpoint).

    JavaScript objects that the code mutates and shares (the [hooks] object of
    the ky options) live in an explicit heap; exceptions are an explicit
    [completion]; the platform ([JSON.parse], [fetch], the way ky keeps its
    hook arrays) is a parameter of the model, gathered in the record [host].
    Two modules the client imports, [errors.js] and [streaming.js], are not
    among the sources; what is needed of them is modelled from the spec and
    marked as such. *)

From Stdlib Require Import ZArith List Ascii String Uint63 Floats.PrimFloat.
From stdpp Require Import base option list gmap strings.

Open Scope Z_scope.
Set Warnings "-register-all,-inexact-float".
Set Default Proof Using "Type".


(* ===================================================================== *)
(** ** JavaScript values                                                   *)
(* ===================================================================== *)

(** The result of [JSON.parse]. A number is a binary64 float, as in
    JavaScript; an object keeps its properties in insertion order with
    pairwise distinct keys. *)
Inductive json : Type :=
| JNull
| JBool (b : bool)
| JNumber (f : float)
| JString (s : string)
| JArray (items : list json)
| JObject (fields : list (string * json)).

(** [o[k]] on the property list of an object; [None] is [undefined]. *)
Fixpoint obj_get {V : Type} (k : string) (o : list (string * V)) : option V :=
  match o with
  | [] => None
  | (k', v) :: o' => if String.eqb k k' then Some v else obj_get k o'
  end.

(** [o[k] = v]: an existing property keeps its place, a new one goes last. *)
Fixpoint obj_set {V : Type} (k : string) (v : V) (o : list (string * V))
  : list (string * V) :=
  match o with
  | [] => [(k, v)]
  | (k', v') :: o' =>
      if String.eqb k k' then (k, v) :: o' else (k', v') :: obj_set k v o'
  end.

(** [{...o}] copied into [acc], property by property, in order. *)
Definition obj_spread {V : Type} (acc o : list (string * V))
  : list (string * V) :=
  fold_left (fun a kv => obj_set kv.1 kv.2 a) o acc.

Definition number_truthy (f : float) : bool :=
  negb (PrimFloat.eqb f PrimFloat.zero || PrimFloat.is_nan f).

Definition str_truthy (s : string) : bool :=
  negb (String.eqb s "").

(** ToBoolean on a parsed JSON value. *)
Definition json_truthy (v : json) : bool :=
  match v with
  | JNull => false
  | JBool b => b
  | JNumber f => number_truthy f
  | JString s => str_truthy s
  | JArray _ | JObject _ => true
  end.

(** [v?.error]: only an object can own the property; [null?.error] and a
    property read on a primitive or an array give [undefined]. *)
Definition get_error (v : option json) : option json :=
  match v with
  | Some (JObject o) => obj_get "error" o
  | _ => None
  end.

(** Values a caller can hand over as [params.file]. *)
Inductive js_value : Type :=
| VUndefined
| VNull
| VBool (b : bool)
| VNumber (f : float)
| VString (s : string)
| VBlob (name : option string) (type : string) (content : string)
| VArrayBuffer (content : string)
| VView (content : string)
| VStream
| VObject (fields : list (string * js_value)).

Definition truthy (v : js_value) : bool :=
  match v with
  | VUndefined | VNull => false
  | VBool b => b
  | VNumber f => number_truthy f
  | VString s => str_truthy s
  | _ => true
  end.

(** [v instanceof Blob] *)
Definition instanceof_Blob (v : js_value) : bool :=
  match v with VBlob _ _ _ => true | _ => false end.

(** [v instanceof ArrayBuffer || ArrayBuffer.isView(v)] *)
Definition is_buffer (v : js_value) : bool :=
  match v with VArrayBuffer _ | VView _ => true | _ => false end.

(** [v[k]] for the properties the client reads ([data], [name], [type]);
    a [File] has a [name], every [Blob] a [type]. *)
Definition prop (k : string) (v : js_value) : js_value :=
  match v with
  | VObject o => default VUndefined (obj_get k o)
  | VBlob name type _ =>
      if String.eqb k "name" then from_option VString VUndefined name
      else if String.eqb k "type" then VString type
      else VUndefined
  | _ => VUndefined
  end.

(** [a || b] *)
Definition js_or (a b : js_value) : js_value := if truthy a then a else b.

(** [a || b] on optional strings. *)
Definition str_or (a : option string) (b : string) : string :=
  match a with
  | Some s => if str_truthy s then s else b
  | None => b
  end.

(* ===================================================================== *)
(** ** HTTP responses, thrown values                                       *)
(* ===================================================================== *)

(** A native [Error] ([TypeError], [SyntaxError], a failed read ...). *)
Record Error : Type := mkError { message : string }.

(** One element produced by iterating a headers value. *)
Inductive header_item : Type :=
| ItemArray (xs : list string)   (* a [string[]]; a string spreads alike *)
| ItemOther.                     (* not iterable: spreading it throws *)

(** What [parseHeaders] can be handed. *)
Inductive HeadersInit : Type :=
| HNullish                       (* undefined, null, any falsy value *)
| HPrimitive                     (* truthy non-object: [in] throws *)
| HIterable (items : list header_item) (completes : bool)
                                 (* a [Headers], an array of pairs, any
                                    iterable; [completes = false]: the
                                    iterator throws after [items] *)
| HRecord (fields : gmap string (option string)).

(** A response body: the chunks the network delivers and, when reading it
    fails, the error the read is rejected with. *)
Record body_stream : Type := Body {
  chunks : list string;
  read_error : option Error
}.

(** A response. [bodyUsed] says that its body has been read already: this
    is [false] on what [fetch] returns and becomes [true] once somebody, a
    hook of the caller that runs first for instance, has read the body. *)
Record Response : Type := mkResponse {
  status : Z;
  headers : HeadersInit;
  body : option body_stream;
  bodyUsed : bool
}.

Definition ok (r : Response) : bool :=
  (200 <=? status r) && (status r <=? 299).

Definition join (cs : list string) : string :=
  fold_right String.append "" cs.

(** Modelled from the spec: the class [APIError] of [errors.js], which is
    not among the sources. Its constructor is called with [status],
    [errorResponse], [message] and [hdrs]; the spec describes the error
    value as "HTTP status, optional parsed provider error object, optional
    raw message, response headers". *)
Record APIError : Type := mkAPIError {
  api_status : Z;
  api_error : option json;
  api_message : option string;
  api_headers : gmap string (option string)
}.

(** Values that are thrown, rejected or passed to a [beforeError] hook. *)
Inductive js_error : Type :=
| HTTPError (response : Response)   (* ky's error: owns [.response] *)
| Native (e : Error)                (* any [Error] without [.response] *)
| APIError_ (e : APIError)          (* the structured error *)
| GenericError (cause : js_error).  (* see [APIError_generate] *)

(** Modelled from the spec: [APIError.generate(undefined, error, undefined,
    undefined)] of [errors.js], which is not among the sources: without a
    response the failure is "normalized into a generic error wrapping the
    underlying cause". *)
Definition APIError_generate (error : js_error) : js_error :=
  GenericError error.

(** Modelled from the spec: [castToError] of [errors.js], which is not among
    the sources. The spec has a failure carry "the underlying cause's
    message"; what a failed read is rejected with is an [Error], which is
    returned as it is. *)
Definition castToError (e : Error) : Error := e.

(** [error?.response] *)
Definition response_of (error : js_error) : option Response :=
  match error with
  | HTTPError r => Some r
  | _ => None
  end.

(** The outcome of an expression: a value, or an exception of type [E] on
    its way up. *)
Inductive completion (E A : Type) : Type :=
| Normal (a : A)
| Throw (e : E).
Arguments Normal {E A} a.
Arguments Throw {E A} e.

#[global] Instance completion_ret {E} : MRet (completion E) := λ A a, Normal a.
#[global] Instance completion_bind {E} : MBind (completion E) := λ A B k m,
  match m with
  | Normal a => k a
  | Throw e => Throw e
  end.

(** [try { m } catch (e) { h e }] and [promise.catch(h)] *)
Definition catch {E A : Type} (m : completion E A) (h : E -> completion E A)
  : completion E A :=
  match m with
  | Normal a => Normal a
  | Throw e => h e
  end.

(* ===================================================================== *)
(** ** fetch-api: the error normaliser                                     *)
(* ===================================================================== *)

(** [[...header]] followed by the reading [Object.fromEntries] makes of the
    resulting array: property [ToString(header[0])] gets [header[1]]. *)
Definition entry_of (xs : list string) : string * option string :=
  (nth 0 xs "undefined", nth_error xs 1).

(** [Array.from(headers).map((header) => [...header])] *)
Fixpoint spread_items (items : list header_item)
  : completion Error (list (list string)) :=
  match items with
  | [] => mret []
  | ItemArray xs :: rest => l ← spread_items rest; mret (xs :: l)
  | ItemOther :: _ => Throw (mkError "header is not iterable")
  end.

(** [Object.fromEntries]: later entries overwrite earlier ones. *)
Definition fromEntries (es : list (list string)) : gmap string (option string) :=
  fold_left (fun m xs => <[(entry_of xs).1 := (entry_of xs).2]> m) es ∅.

(** The [try] block of [parseHeaders]. *)
Definition parseHeaders_try (h : HeadersInit)
  : completion Error (gmap string (option string)) :=
  match h with
  | HNullish => mret ∅
  | HPrimitive => Throw (mkError "right-hand side of 'in' is not an object")
  | HIterable items completes =>
      if completes then es ← spread_items items; mret (fromEntries es)
      else Throw (mkError "iterator failed")
  | HRecord fields => mret fields
  end.

Definition parseHeaders (h : HeadersInit)
  : completion Error (gmap string (option string)) :=
  catch (parseHeaders_try h) (λ _, mret ∅).

(* ===================================================================== *)
(** ** Requests, ky options and the heap of hook objects                   *)
(* ===================================================================== *)

Inductive AbortSignal : Type := Signal (id : nat).

(** A value stored in a [FormData] by [append]. *)
Inductive form_value : Type :=
| FormString (s : string)
| FormToString (v : js_value)       (* a non-Blob value: kept as a string *)
| FormBlob (blob filename : js_value)
| FormNewBlob (part type filename : js_value)
                                    (* [new Blob([part], { type })] *)
| FormJSON (v : js_value).          (* [JSON.stringify(v)] *)

Definition FormData : Type := list (string * form_value).

(** What reaches [fetch]: the options of the ky instance with those of the
    single call laid over them. [req_headers] holds the headers of the
    merged options; the [content-type] that ky adds by itself for a JSON or
    a form body is not among them. *)
Record Request : Type := mkRequest {
  req_prefixUrl : string;
  req_path : string;
  req_headers : gmap string string;
  req_json : option json;
  req_body : option FormData;
  req_signal : option AbortSignal;
  req_timeout : Z
}.

(** The platform the module runs on. *)
Record host : Type := mkHost {
  (** [JSON.parse]: the parsed value, or a [SyntaxError] *)
  JSON_parse : string -> completion Error json;
  (** the server behind [fetch] *)
  fetch : Request -> Response;
  (** ky keeps the hook arrays it was created with ([true]: it copies them
      when the instance is made; [false]: it reads them again on every
      request) *)
  ky_copies_hooks : bool
}.

(** A function of a [beforeError] array. *)
Inductive hook : Type :=
| UserHook (f : js_error -> js_error)
| Normalizer.                       (* the closure [createApiInstance] pushes *)

(** A [hooks] object. Only [beforeError] is ever touched by the module; an
    absent array is [None]. *)
Record hooks_obj : Type := mkHooks {
  beforeRequest : list nat;
  afterResponse : list nat;
  beforeError : option (list hook)
}.

Definition empty_hooks : hooks_obj := mkHooks [] [] None.

Abbreviation loc := positive.

Record retry_options : Type := mkRetry {
  limit : nat;
  methods : list string;
  statusCodes : list Z
}.

Inductive retry_policy : Type :=
| UserRetry (r : retry_options)
| DefaultBackoff.                   (* [{ delay: (attemptCount) => ... }] *)

(** [kyOptions]. Of the options that end up in [...rest] only [signal] is
    modelled. *)
Record KyOptions : Type := mkKyOptions {
  ko_headers : option (gmap string string);
  ko_hooks : option loc;
  ko_prefixUrl : option string;
  ko_retry : option retry_options;
  ko_timeout : option Z;
  ko_signal : option AbortSignal
}.

Definition empty_KyOptions : KyOptions :=
  mkKyOptions None None None None None None.

Record ApiArgs : Type := mkApiArgs {
  apiKey : string;
  baseUrl : option string;
  organizationId : option string;
  kyOptions : option KyOptions
}.

(** The value of [ky.extend({...})]. *)
Record KyInstance : Type := mkKy {
  ky_prefixUrl : string;
  ky_headers : gmap string string;
  ky_retry : retry_policy;
  ky_timeout : Z;
  ky_hooks : loc;                   (* the [hooks] object it was given *)
  ky_beforeError : list hook;       (* its array when the instance was made *)
  ky_signal : option AbortSignal
}.

(** The adapter: the variables its two closures capture. [headers] and
    [prefixUrl] are read off [a_kyOptions], whose own fields are never
    assigned to. *)
Record ApiInstanceAdapter : Type := mkAdapter {
  a_apiKey : string;
  a_baseUrl : option string;
  a_organizationId : option string;
  a_kyOptions : KyOptions;
  a_hooks : loc;
  a_kyBase : KyInstance
}.

(** The options of one [post]. *)
Record PostOpts : Type := mkPostOpts {
  po_json : option json;
  po_body : option FormData;
  po_headers : option (gmap string string);
  po_signal : option AbortSignal
}.

(** [RequestOpts] of the client, the [overrides] of [extend]. *)
Record RequestOpts : Type := mkRequestOpts {
  ro_headers : option (gmap string string);
  ro_signal : option AbortSignal
}.

(** The state the calls run in: the heap of [hooks] objects, and two
    recorders: every request handed to [fetch], and every error the
    normaliser was run on. *)
Record world : Type := mkWorld {
  heap : gmap loc hooks_obj;
  sent : list Request;
  normalized : list js_error
}.

Definition M (A : Type) : Type := world -> completion js_error A * world.

#[global] Instance M_ret : MRet M := λ A a w, (Normal a, w).
#[global] Instance M_bind : MBind M := λ A B k m w,
  match m w with
  | (Normal a, w') => k a w'
  | (Throw e, w') => (Throw e, w')
  end.

Definition throw {A : Type} (e : js_error) : M A := λ w, (Throw e, w).

(** An operation of the platform that throws native errors. *)
Definition native {A : Type} (m : completion Error A) : M A := λ w,
  match m with
  | Normal a => (Normal a, w)
  | Throw e => (Throw (Native e), w)
  end.

(** A fresh object. *)
Definition alloc (o : hooks_obj) : M loc := λ w,
  let l := fresh (dom (heap w)) in
  (Normal l, mkWorld (<[l := o]> (heap w)) (sent w) (normalized w)).

(** Reading an object; a location that holds none reads as the empty
    object. *)
Definition load (l : loc) : M hooks_obj := λ w,
  (Normal (default empty_hooks (heap w !! l)), w).

Definition store (l : loc) (o : hooks_obj) : M unit := λ w,
  (Normal (), mkWorld (<[l := o]> (heap w)) (sent w) (normalized w)).

Definition record_request (r : Request) : M unit := λ w,
  (Normal (), mkWorld (heap w) (sent w ++ [r]) (normalized w)).

Definition record_normalized (e : js_error) : M unit := λ w,
  (Normal (), mkWorld (heap w) (sent w) (normalized w ++ [e])).

(* ===================================================================== *)
(** ** fetch-api                                                           *)
(* ===================================================================== *)

Definition DEFAULT_BASE_URL : string := "https://api.openai.com/v1".

(** [numberBetween(min, max)], on the draw [random] of [Math.random()], a
    double that is at least [0] and less than [1]. *)
Definition numberBetween (random min max : float) : float :=
  (random * (max - min) + min)%float.

(** [Math.pow(base, 2)]: the square. *)
Definition Math_pow_2 (base : float) : float := (base * base)%float.

(** The [delay] of the default retry options, in milliseconds, on the draw
    [random] that its call of [numberBetween] makes. *)
Definition delay (random attemptCount : float) : float :=
  let INITIAL_DELAY := 0.3%float in
  let jitter := numberBetween random (-0.3)%float 0.3%float in
  let sleep := (INITIAL_DELAY * Math_pow_2 (attemptCount - 1))%float in
  ((sleep + jitter) * 1000)%float.

Section FetchApi.
Context (H : host).

Definition safeJson (text : string) : completion Error (option json) :=
  catch (v ← JSON_parse H text; mret (Some v)) (λ _, mret None).

(** [response.clone()]. The Fetch standard has it throw a [TypeError] when
    the response is unusable, that is, when it has a body and the body has
    been read. *)
Definition clone (response : Response) : completion Error Response :=
  match body response with
  | Some _ =>
      if bodyUsed response
      then Throw (mkError "Response.clone: Body has already been consumed.")
      else mret response
  | None => mret response
  end.

(** [response.text()]: the whole text, or the rejection of the read. *)
Definition text (response : Response) : completion Error string :=
  match body response with
  | Some b =>
      if bodyUsed response then Throw (mkError "Body is unusable")
      else match read_error b with
           | None => mret (join (chunks b))
           | Some e => Throw e
           end
  | None => mret ""
  end.

(** The function pushed on [hooks.beforeError]. *)
Definition normalize (error : js_error) : completion Error js_error :=
  match response_of error with
  | Some response =>
      let status := status response in
      hdrs ← parseHeaders (headers response);
      '(errorResponse, message) ←
        match body response with
        | Some _ =>
            copy ← clone response;
            errText ← catch (text copy) (λ e, mret (message (castToError e)));
            parsed ← safeJson errText;
            let errorResponse := get_error parsed in
            mret (errorResponse,
                  if from_option json_truthy false errorResponse
                  then None else Some errText)
        | None => mret (None, None)
        end;
      mret (APIError_ (mkAPIError status errorResponse message hdrs))
  | None => mret (APIError_generate error)
  end.

(** The [headers] option handed to [ky.extend]; of two spreads the later
    one wins. *)
Definition instance_headers (apiKey : string) (organizationId : option string)
    (headers : option (gmap string string)) : gmap string string :=
  default ∅ headers
  ∪ (if str_truthy (default "" organizationId)
     then {["OpenAI-Organization" := default "" organizationId]} else ∅)
  ∪ (if str_truthy apiKey
     then {["Authorization" := "Bearer " +:+ apiKey]} else ∅)
  ∪ {["User-Agent" := "openai-fetch"]}.

Definition createApiInstance (args : ApiArgs) : M ApiInstanceAdapter :=
  let kyOptions := default empty_KyOptions (kyOptions args) in
  let headers := ko_headers kyOptions in
  let prefixUrl := ko_prefixUrl kyOptions in
  (* hooks = {} *)
  hooks ← match ko_hooks kyOptions with
          | Some l => mret l
          | None => alloc empty_hooks
          end;
  (* if (!hooks.beforeError) hooks.beforeError = []; *)
  o ← load hooks;
  let arr := default [] (beforeError o) in
  (* hooks.beforeError.push(async (error) => ...) *)
  let arr := arr ++ [Normalizer] in
  store hooks (mkHooks (beforeRequest o) (afterResponse o) (Some arr));;
  let kyBase :=
    mkKy (str_or (baseUrl args) (str_or prefixUrl DEFAULT_BASE_URL))
         (instance_headers (apiKey args) (organizationId args) headers)
         (from_option UserRetry DefaultBackoff (ko_retry kyOptions))
         (default (1000 * 60 * 10) (ko_timeout kyOptions))
         hooks arr
         (ko_signal kyOptions) in
  mret (mkAdapter (apiKey args) (baseUrl args) (organizationId args)
                  kyOptions hooks kyBase).

(** [adapter.extend] *)
Definition extend (a : ApiInstanceAdapter) (overrides : RequestOpts)
  : M ApiInstanceAdapter :=
  let kyOptions := a_kyOptions a in
  let mergedHeaders :=
    default ∅ (ro_headers overrides) ∪ default ∅ (ko_headers kyOptions) in
  createApiInstance
    (mkApiArgs (a_apiKey a)
       (Some (str_or (a_baseUrl a)
                (str_or (ko_prefixUrl kyOptions) DEFAULT_BASE_URL)))
       (a_organizationId a)
       (Some (mkKyOptions (Some mergedHeaders) (ko_hooks kyOptions)
                (ko_prefixUrl kyOptions) (ko_retry kyOptions)
                (ko_timeout kyOptions) (ko_signal kyOptions)))).

(** ky runs the [beforeError] hooks one after the other, each on the result
    of the one before. *)
Fixpoint run_beforeError (hooks : list hook) (error : js_error) : M js_error :=
  match hooks with
  | [] => mret error
  | UserHook f :: rest => run_beforeError rest (f error)
  | Normalizer :: rest =>
      record_normalized error;;
      error' ← native (normalize error);
      run_beforeError rest error'
  end.

(** The hooks a ky instance runs for a request made now. *)
Definition current_beforeError (ky : KyInstance) : M (list hook) :=
  if ky_copies_hooks H then mret (ky_beforeError ky)
  else o ← load (ky_hooks ky); mret (default [] (beforeError o)).

(** The request of [kyBase.post(path, options)], where [options] is the
    object literal of [adapter.post]: [json], [body], [headers] and [signal]
    are all own properties of it, so a value the caller did not give is an
    explicit [undefined]. ky copies the options of the call over those of
    the instance key by key, and an [undefined] replaces what the instance
    had: the signal of the request is the one of the call, whatever the
    instance has, and the headers of the instance are on the request only
    when the call passes a headers object, which is then merged over
    them. *)
Definition ky_request (ky : KyInstance) (path : string) (o : PostOpts)
  : Request :=
  mkRequest (ky_prefixUrl ky) path
    (match po_headers o with
     | Some headers => headers ∪ ky_headers ky
     | None => ∅
     end)
    (po_json o) (po_body o)
    (po_signal o)
    (ky_timeout ky).

(** [input.startsWith('/')] *)
Definition starts_with_slash (input : string) : bool :=
  match input with
  | String "/" _ => true
  | _ => false
  end.

(** [kyBase.post(path, options)]. With a [prefixUrl], ky refuses an input
    that begins with a slash: it throws before any request is made.
    Otherwise there is one request; a response that is not [ok] becomes an
    [HTTPError], goes through the [beforeError] hooks and is thrown.

    The model is of one attempt. ky repeats a request only for the methods
    the retry options list, and its own list has no [post]; a caller whose
    [retry] names [post] is outside the model, and so are [beforeRequest]
    and [afterResponse] hooks of the caller, which are functions the model
    does not run. *)
Definition ky_post (ky : KyInstance) (path : string) (o : PostOpts)
  : M Response :=
  if starts_with_slash path && str_truthy (ky_prefixUrl ky) then
    throw (Native (mkError
      "`input` must not begin with a slash when using `prefixUrl`"))
  else
    let req := ky_request ky path o in
    record_request req;;
    let res := fetch H req in
    if ok res then mret res
    else
      hooks ← current_beforeError ky;
      error ← run_beforeError hooks (HTTPError res);
      throw error.

(** [path.replace(/^\//, '')] *)
Definition strip_slash (path : string) : string :=
  match path with
  | String "/" rest => rest
  | _ => path
  end.

(** [adapter.post] *)
Definition post (a : ApiInstanceAdapter) (path : string) (opts : PostOpts)
  : M Response :=
  ky_post (a_kyBase a) (strip_slash path)
    (mkPostOpts (po_json opts) (po_body opts) (po_headers opts)
       (po_signal opts)).

End FetchApi.

(* ===================================================================== *)
(** ** The stream chunk decoder                                            *)
(* ===================================================================== *)

Definition nl : ascii := "010"%char.

(** Puts [c] in front of the first frame, or of the remainder when there is
    no frame. *)
Definition push_char (c : ascii) (p : list string * string)
  : list string * string :=
  match p.1 with
  | [] => ([], String c p.2)
  | f :: fs => (String c f :: fs, p.2)
  end.

(** Modelled from the spec: the buffering of [streaming.js], which is not
    among the sources ("splitting only on the frame-delimiter pattern", "a
    trailing incomplete remainder" is held). The frames of [s] that the
    delimiter (two line feeds) closes, left to right, and what follows the
    last delimiter. *)
Fixpoint split_frames (s : string) : list string * string :=
  match s with
  | EmptyString => ([], EmptyString)
  | String c s' =>
      match s' with
      | EmptyString => ([], s)
      | String c' s'' =>
          if Ascii.eqb c nl && Ascii.eqb c' nl
          then (EmptyString :: (split_frames s'').1, (split_frames s'').2)
          else push_char c (split_frames s')
      end
  end.

(** The lines of a frame. *)
Fixpoint split_lines (s : string) : list string :=
  match s with
  | EmptyString => [EmptyString]
  | String c s' =>
      if Ascii.eqb c nl then EmptyString :: split_lines s'
      else match split_lines s' with
           | l :: ls => String c l :: ls
           | [] => [String c EmptyString]
           end
  end.

(** [s] without the prefix [p], when it has it. *)
Fixpoint strip_prefix (p s : string) : option string :=
  match p, s with
  | EmptyString, _ => Some s
  | String a p', String b s' =>
      if Ascii.eqb a b then strip_prefix p' s' else None
  | String _ _, EmptyString => None
  end.

(** Modelled from the spec: the frame format of [streaming.js], which is not
    among the sources ("[data: <json>\n\n] frames, plus optional [event:] or
    comment lines to be ignored"). The payload of a [data:] line, without
    the space after the colon; any other line has none. *)
Definition payload (line : string) : option string :=
  match strip_prefix "data:" line with
  | Some (String " " rest) => Some rest
  | Some rest => Some rest
  | None => None
  end.

(** Modelled from the spec: the states of the decoder ("AWAITING_DELIMITER,
    HAVE_PARTIAL_FRAME, TERMINATED"); [Running] is the first with an empty
    buffer and the second with a partial frame in it, and a decode error is
    a way of being terminated. *)
Inductive decoder_status : Type :=
| Running                           (* reading; [buffer] holds a partial frame *)
| Terminated                        (* the sequence has ended *)
| Failed (e : Error).               (* a decode error ended the sequence *)

Record decoder (T : Type) : Type := mkDecoder {
  buffer : string;
  yielded : list T;
  dstatus : decoder_status
}.
Arguments mkDecoder {T} _ _ _.
Arguments buffer {T} _.
Arguments yielded {T} _.
Arguments dstatus {T} _.

Section Streaming.
Context (H : host) {T : Type} (responseFactory : json -> T).

(** Modelled from the spec: the handling of one payload in [streaming.js],
    which is not among the sources. The payload [[DONE]] ends the sequence;
    any other payload is parsed, goes through the mapping function and is
    yielded; one that is not JSON is a fatal decode error. *)
Definition on_payload (d : decoder T) (p : string) : decoder T :=
  match dstatus d with
  | Running =>
      if String.eqb p "[DONE]" then mkDecoder (buffer d) (yielded d) Terminated
      else match JSON_parse H p with
           | Normal v =>
               mkDecoder (buffer d) (yielded d ++ [responseFactory v]) Running
           | Throw e => mkDecoder (buffer d) (yielded d) (Failed e)
           end
  | _ => d
  end.

(** The payloads of one frame, in order. *)
Definition on_frame (d : decoder T) (frame : string) : decoder T :=
  fold_left on_payload (omap payload (split_lines frame)) d.

(** Modelled from the spec: the arrival of one chunk in [streaming.js],
    which is not among the sources. The chunk is added to the buffer, the
    frames the buffer now closes are decoded, and the remainder is held
    "until the next chunk arrives". *)
Definition transform (d : decoder T) (chunk : string) : decoder T :=
  match dstatus d with
  | Running =>
      let p := split_frames (buffer d +:+ chunk) in
      let d' := fold_left on_frame p.1 (mkDecoder "" (yielded d) Running) in
      match dstatus d' with
      | Running => mkDecoder p.2 (yielded d') Running
      | st => mkDecoder "" (yielded d') st
      end
  | _ => d
  end.

(** Modelled from the spec: the close of the byte stream, at which "the
    sequence ends"; a partial frame left in the buffer is dropped. *)
Definition flush (d : decoder T) : decoder T :=
  match dstatus d with
  | Running => mkDecoder "" (yielded d) Terminated
  | _ => d
  end.

(** Modelled from the spec: the class [StreamCompletionChunker] of
    [streaming.js], which is not among the sources, run on a whole byte
    stream given as the list of its chunks (spec 4.3). *)
Definition StreamCompletionChunker (stream : list string) : decoder T :=
  flush (fold_left transform stream (mkDecoder "" [] Running)).

End Streaming.

(* ===================================================================== *)
(** ** openai-client.ts                                                    *)
(* ===================================================================== *)

Record ConfigOpts : Type := mkConfigOpts {
  co_apiKey : option string;
  co_organizationId : option string;
  co_baseUrl : option string;
  co_kyOptions : option KyOptions
}.

Record OpenAIClient : Type := mkClient { api : ApiInstanceAdapter }.

(** [params] of [createTranscription]; [tp_file] is [VUndefined] when the
    field is missing. *)
Record TranscriptionParams : Type := mkTranscriptionParams {
  tp_file : js_value;
  tp_model : string;
  tp_language : option string;
  tp_prompt : option string;
  tp_response_format : option string;
  tp_temperature : option float;
  tp_timestamp_granularities : option (list string);
  tp_include : option (list string);
  tp_stream : option bool;
  tp_chunking_strategy : option js_value
}.

Inductive TranscriptionResponse : Type :=
| TranscriptionText (s : string)
| TranscriptionJson (v : json).

(** [a || b] on optional strings, the result optional again. *)
Definition opt_or (a b : option string) : option string :=
  match a with
  | Some s => if str_truthy s then a else b
  | None => b
  end.

(** [if (x) form.append(k, x)] for a string [x]. *)
Definition append_if (k : string) (x : option string) (form : FormData)
  : FormData :=
  match x with
  | Some v => if str_truthy v then form ++ [(k, FormString v)] else form
  | None => form
  end.

(** [if (xs) for (const x of xs) form.append(k, x)] *)
Definition append_each (k : string) (xs : option (list string))
    (form : FormData) : FormData :=
  form ++ map (λ x, (k, FormString x)) (default [] xs).

(** The [file] entry of the form, by the four branches of the source. *)
Definition file_entry (file : js_value) : form_value :=
  if negb (instanceof_Blob file) && truthy (prop "data" file) then
    FormNewBlob (prop "data" file)
      (js_or (prop "type" file) (VString "application/octet-stream"))
      (js_or (prop "name" file) (VString "audio"))
  else if instanceof_Blob file then
    FormBlob file (js_or (prop "name" file) (VString "audio"))
  else if is_buffer file then
    FormNewBlob file (VString "application/octet-stream") (VString "audio")
  else
    (* Fallback: try appending as-is *)
    FormToString file.

(** The form of [createTranscription], after the [file] check. *)
Definition transcription_form (params : TranscriptionParams) : FormData :=
  let form := [("file", file_entry (tp_file params))] in
  let form := form ++ [("model", FormString (tp_model params))] in
  let form := append_if "language" (tp_language params) form in
  let form := append_if "prompt" (tp_prompt params) form in
  let form := append_if "response_format" (tp_response_format params) form in
  let form :=
    match tp_temperature params with
    | Some t => form ++ [("temperature", FormToString (VNumber t))]
    | None => form
    end in
  let form :=
    append_each "timestamp_granularities[]"
      (tp_timestamp_granularities params) form in
  let form := append_each "include[]" (tp_include params) form in
  let form :=
    match tp_stream params with
    | Some b => form ++ [("stream", FormToString (VBool b))]
    | None => form
    end in
  match tp_chunking_strategy params with
  | Some (VString cs) => form ++ [("chunking_strategy", FormString cs)]
  | Some VUndefined | Some VNull | None => form
  | Some cs => form ++ [("chunking_strategy", FormJSON cs)]
  end.

Section Client.
Context (H : host).

(** [new OpenAIClient(opts)], with [process.env] as [env]. *)
Definition new_OpenAIClient (env : gmap string string) (opts : ConfigOpts)
  : M OpenAIClient :=
  let apiKey := opt_or (co_apiKey opts) (env !! "OPENAI_API_KEY") in
  let organizationId :=
    opt_or (co_organizationId opts) (env !! "OPENAI_ORG_ID") in
  if negb (str_truthy (default "" apiKey)) then
    throw (Native (mkError "Missing OpenAI API key. Please provide one in the config or set the OPENAI_API_KEY environment variable."))
  else
    a ← createApiInstance
           (mkApiArgs (default "" apiKey) (co_baseUrl opts) organizationId
              (co_kyOptions opts));
    mret (mkClient a).

Definition getApi (this : OpenAIClient) (opts : option RequestOpts)
  : M ApiInstanceAdapter :=
  match opts with
  | Some o => extend (api this) o
  | None => mret (api this)
  end.

(** [res.text()] and [res.json()] *)
Definition res_text (res : Response) : M string :=
  native (text res).

Definition res_json (res : Response) : M json :=
  t ← res_text res; native (JSON_parse H t).

Definition json_opts (v : json) : PostOpts :=
  mkPostOpts (Some v) None None None.

Definition createChatCompletion (this : OpenAIClient)
    (params : list (string * json)) (opts : option RequestOpts) : M json :=
  a ← getApi this opts;
  chatResp ← post H a "chat/completions" (json_opts (JObject params));
  res_json chatResp.

(** [response.body.pipeThrough(new StreamCompletionChunker(f))], read to its
    end. *)
Definition pipeThrough {T : Type} (res : Response) (f : json -> T)
  : M (decoder T) :=
  match body res with
  | Some b => mret (StreamCompletionChunker H f (chunks b))
  | None => throw (Native (mkError "response.body is null"))
  end.

Definition streamChatCompletion (this : OpenAIClient)
    (params : list (string * json)) (opts : option RequestOpts)
  : M (decoder json) :=
  a ← getApi this opts;
  response ← post H a "chat/completions"
                (json_opts (JObject (obj_set "stream" (JBool true)
                                       (obj_spread [] params))));
  pipeThrough response (λ response, response).

Definition createCompletions (this : OpenAIClient)
    (params : list (string * json)) (opts : option RequestOpts) : M json :=
  a ← getApi this opts;
  compResp ← post H a "completions" (json_opts (JObject params));
  res_json compResp.

Definition streamCompletion (this : OpenAIClient)
    (params : list (string * json)) (opts : option RequestOpts)
  : M (decoder json) :=
  a ← getApi this opts;
  response ← post H a "completions"
                (json_opts (JObject (obj_set "stream" (JBool true)
                                       (obj_spread [] params))));
  pipeThrough response (λ response, response).

Definition createEmbeddings (this : OpenAIClient)
    (params : list (string * json)) (opts : option RequestOpts) : M json :=
  a ← getApi this opts;
  embResp ← post H a "embeddings" (json_opts (JObject params));
  res_json embResp.

Definition createModeration (this : OpenAIClient)
    (params : list (string * json)) (opts : option RequestOpts) : M json :=
  a ← getApi this opts;
  modResp ← post H a "moderations" (json_opts (JObject params));
  res_json modResp.

(** The bytes of [arrayBuffer()] are those of the body. *)
Definition createSpeech (this : OpenAIClient)
    (params : list (string * json)) (opts : option RequestOpts) : M string :=
  a ← getApi this opts;
  speechResp ← post H a "audio/speech" (json_opts (JObject params));
  res_text speechResp.

Definition createTranscription (this : OpenAIClient)
    (params : TranscriptionParams) (opts : option RequestOpts)
  : M TranscriptionResponse :=
  let file := tp_file params in
  if negb (truthy file) then
    throw (Native (mkError "Transcription requires a file"))
  else
    let form := transcription_form params in
    a ← getApi this opts;
    resp ← post H a "audio/transcriptions"
              (mkPostOpts None (Some form) (Some ∅) None);
    let rf := tp_response_format params in
    if bool_decide (rf = Some "text" ∨ rf = Some "srt" ∨ rf = Some "vtt")
    then t ← res_text resp; mret (TranscriptionText t)
    else v ← res_json resp; mret (TranscriptionJson v).

End Client.

(* ===================================================================== *)
(** ** A reference [JSON.parse]                                            *)
(* ===================================================================== *)

(** The theorems hold for every [host]; this parser is the one the model is
    run with on examples. It reads the JSON texts made of objects, arrays,
    strings with the one-letter escapes, integers and the three literals;
    a fraction, an exponent or a [\u] escape is beyond it and counts as a
    syntax error. *)

Definition quote : ascii := "034"%char.
Definition backslash : ascii := "092"%char.

Definition is_ws (c : ascii) : bool :=
  Ascii.eqb c " " || Ascii.eqb c "009" || Ascii.eqb c nl || Ascii.eqb c "013".

Fixpoint skip_ws (s : string) : string :=
  match s with
  | String c r => if is_ws c then skip_ws r else s
  | EmptyString => s
  end.

Definition digit (c : ascii) : option Z :=
  let n := Z.of_nat (nat_of_ascii c) in
  if (48 <=? n) && (n <=? 57) then Some (n - 48) else None.

Fixpoint read_digits (s : string) (acc : Z) : Z * string :=
  match s with
  | String c r =>
      match digit c with
      | Some d => read_digits r (10 * acc + d)
      | None => (acc, s)
      end
  | EmptyString => (acc, s)
  end.

Definition unescape (c : ascii) : option ascii :=
  if Ascii.eqb c quote then Some quote
  else if Ascii.eqb c backslash then Some backslash
  else if Ascii.eqb c "/" then Some "/"%char
  else if Ascii.eqb c "n" then Some nl
  else if Ascii.eqb c "t" then Some "009"%char
  else if Ascii.eqb c "r" then Some "013"%char
  else if Ascii.eqb c "b" then Some "008"%char
  else if Ascii.eqb c "f" then Some "012"%char
  else None.

(** The characters up to the closing quote. *)
Fixpoint read_string (s : string) : option (string * string) :=
  match s with
  | EmptyString => None
  | String c r =>
      if Ascii.eqb c quote then Some (EmptyString, r)
      else if Ascii.eqb c backslash then
        match r with
        | String e r' =>
            ch ← unescape e;
            p ← read_string r';
            Some (String ch p.1, p.2)
        | EmptyString => None
        end
      else if (nat_of_ascii c <? 32)%nat then None
      else p ← read_string r; Some (String c p.1, p.2)
  end.

Definition float_of_Z (z : Z) : float :=
  if z <? 0 then PrimFloat.opp (PrimFloat.of_uint63 (Uint63.of_Z (- z)))
  else PrimFloat.of_uint63 (Uint63.of_Z z).

Definition read_number (negative : bool) (s : string) : option (json * string) :=
  match s with
  | String c _ =>
      match digit c with
      | Some _ =>
          let p := read_digits s 0 in
          match p.2 with
          | String "." _ | String "e" _ | String "E" _ => None
          | _ => Some (JNumber (float_of_Z (if negative then - p.1 else p.1)),
                       p.2)
          end
      | None => None
      end
  | EmptyString => None
  end.

Definition read_literal (s : string) : option (json * string) :=
  match strip_prefix "true" s, strip_prefix "false" s, strip_prefix "null" s with
  | Some r, _, _ => Some (JBool true, r)
  | _, Some r, _ => Some (JBool false, r)
  | _, _, Some r => Some (JNull, r)
  | _, _, _ => None
  end.

Fixpoint parse_value (fuel : nat) (s : string) {struct fuel}
  : option (json * string) :=
  match fuel with
  | O => None
  | S n =>
      match skip_ws s with
      | EmptyString => None
      | String c r =>
          if Ascii.eqb c "{" then
            match skip_ws r with
            | String "}" r' => Some (JObject [], r')
            | _ => parse_members n r []
            end
          else if Ascii.eqb c "[" then
            match skip_ws r with
            | String "]" r' => Some (JArray [], r')
            | _ => parse_elements n r []
            end
          else if Ascii.eqb c quote then
            p ← read_string r; Some (JString p.1, p.2)
          else if Ascii.eqb c "-" then read_number true r
          else match digit c with
               | Some _ => read_number false (String c r)
               | None => read_literal (String c r)
               end
      end
  end
with parse_elements (fuel : nat) (s : string) (acc : list json) {struct fuel}
  : option (json * string) :=
  match fuel with
  | O => None
  | S n =>
      p ← parse_value n s;
      match skip_ws p.2 with
      | String "," r => parse_elements n r (acc ++ [p.1])
      | String "]" r => Some (JArray (acc ++ [p.1]), r)
      | _ => None
      end
  end
with parse_members (fuel : nat) (s : string) (acc : list (string * json))
    {struct fuel} : option (json * string) :=
  match fuel with
  | O => None
  | S n =>
      match skip_ws s with
      | String c r =>
          if Ascii.eqb c quote then
            k ← read_string r;
            match skip_ws k.2 with
            | String ":" r' =>
                p ← parse_value n r';
                match skip_ws p.2 with
                | String "," r'' => parse_members n r'' (obj_set k.1 p.1 acc)
                | String "}" r'' => Some (JObject (obj_set k.1 p.1 acc), r'')
                | _ => None
                end
            | _ => None
            end
          else None
      | EmptyString => None
      end
  end.

Definition reference_parse (text : string) : completion Error json :=
  match parse_value (2 * String.length text + 2) text with
  | Some (v, rest) =>
      match skip_ws rest with
      | EmptyString => Normal v
      | _ => Throw (mkError "Unexpected non-whitespace character after JSON")
      end
  | None => Throw (mkError "Unexpected token in JSON")
  end.

(** A host with the reference parser, a given server, and ky copying its
    hook arrays. *)
Definition reference_host (server : Request -> Response) : host :=
  mkHost reference_parse server true.

(** The characters that a string literal cannot hold. *)
Definition q : string := String quote EmptyString.
Definition LF : string := String nl EmptyString.

(** The stream [data: {"id":1}\n\ndata: {"id":2}\n\ndata: [DONE]\n\n]. *)
Definition frame (payload : string) : string :=
  "data: " +:+ payload +:+ LF +:+ LF.
Definition id_payload (n : string) : string :=
  "{" +:+ q +:+ "id" +:+ q +:+ ":" +:+ n +:+ "}".
Definition example_stream : string :=
  frame (id_payload "1") +:+ frame (id_payload "2") +:+ frame "[DONE]".

(* ===================================================================== *)
(** ** Closed forms used in the statements                                 *)
(* ===================================================================== *)

(** The adapter [createApiInstance] returns, given the location of its
    [hooks] object and the [beforeError] array after the push. *)
Definition adapter_of (args : ApiArgs) (hooks : loc) (arr : list hook)
  : ApiInstanceAdapter :=
  let kyOptions := default empty_KyOptions (kyOptions args) in
  mkAdapter (apiKey args) (baseUrl args) (organizationId args) kyOptions hooks
    (mkKy (str_or (baseUrl args)
             (str_or (ko_prefixUrl kyOptions) DEFAULT_BASE_URL))
          (instance_headers (apiKey args) (organizationId args)
             (ko_headers kyOptions))
          (from_option UserRetry DefaultBackoff (ko_retry kyOptions))
          (default (1000 * 60 * 10) (ko_timeout kyOptions))
          hooks arr (ko_signal kyOptions)).

(** The [hooks] object after [createApiInstance] has pushed its closure. *)
Definition pushed (o : hooks_obj) : hooks_obj :=
  mkHooks (beforeRequest o) (afterResponse o)
    (Some (default [] (beforeError o) ++ [Normalizer])).

(** The arguments [extend] calls [createApiInstance] with. *)
Definition extend_args (a : ApiInstanceAdapter) (overrides : RequestOpts)
  : ApiArgs :=
  let kyOptions := a_kyOptions a in
  mkApiArgs (a_apiKey a)
    (Some (str_or (a_baseUrl a)
             (str_or (ko_prefixUrl kyOptions) DEFAULT_BASE_URL)))
    (a_organizationId a)
    (Some (mkKyOptions
             (Some (default ∅ (ro_headers overrides)
                    ∪ default ∅ (ko_headers kyOptions)))
             (ko_hooks kyOptions) (ko_prefixUrl kyOptions)
             (ko_retry kyOptions) (ko_timeout kyOptions)
             (ko_signal kyOptions))).

(** The window of the claim C9 for the attempt count [n]: the delay [d], in
    milliseconds, is within [300] of the quadratic term [300 * (n - 1)^2].
    The two ends are whole numbers, and [float_of_Z] gives their doubles,
    which are exact below [2^53]. *)
Definition within_300_of_quadratic (n : Z) (d : float) : bool :=
  let quadratic := 300 * (n - 1) ^ 2 in
  (float_of_Z (quadratic - 300) <=? d)%float
  && (d <=? float_of_Z (quadratic + 300))%float.

(** An error whose response, if it has one with a body, still has that body
    unread. *)
Definition body_unread (error : js_error) : Prop :=
  match response_of error with
  | Some r => is_Some (body r) -> bodyUsed r = false
  | None => True
  end.

(** [form.getAll(k)]: the values appended under the name [k], in the order
    of the appends. *)
Definition form_getAll (k : string) (form : FormData) : list form_value :=
  (filter (λ e, e.1 = k) form).*2.

(** The call [m], made in the world [w], throws. *)
Definition throws {A : Type} (m : M A) (w : world) : Prop :=
  ∃ e w', m w = (Throw e, w').

(* ===================================================================== *)
(** ** Concrete inputs                                                     *)
(* ===================================================================== *)

(** [file] is present and none of the representations the client knows. *)
Definition unrecognized (file : js_value) : bool :=
  truthy file && negb (instanceof_Blob file) && negb (is_buffer file)
  && negb (truthy (prop "data" file)).

Definition empty_world : world := mkWorld ∅ [] [].

(** A server that answers every request with [200] and the body [text]. *)
Definition server_ok (text : string) : Request -> Response :=
  λ _, mkResponse 200 (HIterable [] true) (Some (Body [text] None)) false.

(** A server that answers every request with [status] and no body. *)
Definition server_fails (status : Z) : Request -> Response :=
  λ _, mkResponse status (HIterable [] true) None false.

Definition params_with_file (file : js_value) : TranscriptionParams :=
  mkTranscriptionParams file "whisper-1" None None None None None None None
    None.

(** A [Headers] object with the entries [l]: iterating it gives the pairs
    [[name, value]]. *)
Definition Headers (l : list (string * string)) : HeadersInit :=
  HIterable (map (λ kv, ItemArray [kv.1; kv.2]) l) true.

(** A response that failed with [status] and the body [text]. *)
Definition failed_response (status : Z) (text : string) : Response :=
  mkResponse status (Headers [("content-type", "application/json")])
    (Some (Body [text] None)) false.

(** The body [{"error": {"message": "bad"}}]. *)
Definition error_body : string :=
  "{" +:+ q +:+ "error" +:+ q +:+ ": {" +:+ q +:+ "message" +:+ q +:+ ": "
  +:+ q +:+ "bad" +:+ q +:+ "}}".

(** A client made with an API key and nothing else, and the world that
    making it leaves. *)
Definition example_client : OpenAIClient :=
  mkClient (adapter_of (mkApiArgs "sk-test" None None None) 1%positive
              [Normalizer]).

Definition example_world : world :=
  mkWorld {[1%positive := pushed empty_hooks]} [] [].

(** The example stream, cut inside a delimiter, inside a payload and inside
    the terminator. *)
Definition example_chunks : list string :=
  [ "data: " +:+ id_payload "1" +:+ LF;
    LF +:+ "data: {" +:+ q +:+ "id";
    q +:+ ":2}" +:+ LF +:+ LF +:+ "data: [DO";
    "NE]" +:+ LF +:+ LF ].

(** A [hooks] object of the caller, at location [1], holding the
    [beforeError] hooks [user_hooks]. *)
Definition world_with_hooks (user_hooks : option (list hook)) : world :=
  mkWorld {[1%positive := mkHooks [] [] user_hooks]} [] [].

(** [kyOptions: { hooks }], with the object at location [1]. *)
Definition options_with_hooks : KyOptions :=
  mkKyOptions None (Some 1%positive) None None None None.

(** A hook of the caller that reads the body of the response, as
    [await error.response.json()] does. *)
Definition reads_body (error : js_error) : js_error :=
  match error with
  | HTTPError r => HTTPError (mkResponse (status r) (headers r) (body r) true)
  | _ => error
  end.

(** The claim C4 makes about one call: it throws, and no request has been
    sent by then. *)
Definition throws_before_any_request (H : host) (this : OpenAIClient)
    (params : TranscriptionParams) (opts : option RequestOpts) (w : world)
  : Prop :=
  ∃ e w', createTranscription H this params opts w = (Throw e, w')
          ∧ sent w' = sent w.

(* ===================================================================== *)
(** * Properties                                                           *)
(* ===================================================================== *)

(** ** The state monad *)

Lemma M_bind_unfold {A B : Type} (m : M A) (k : A -> M B) (w : world) :
  (m ≫= k) w =
  match m w with
  | (Normal a, w') => k a w'
  | (Throw e, w') => (Throw e, w')
  end.
Proof. reflexivity. Qed.

(** When the continuation leaves the recorder of requests alone, the
    requests of [m ≫= k] are those of [m]. *)
Lemma bind_sent {A B : Type} (m : M A) (k : A -> M B) (w : world) :
  (∀ a w', sent (k a w').2 = sent w') ->
  sent ((m ≫= k) w).2 = sent (m w).2.
Proof.
  intros Hk. rewrite M_bind_unfold.
  destruct (m w) as [[a|e] w']; simpl; [apply Hk | reflexivity].
Qed.

Lemma native_world {A : Type} (m : completion Error A) (w : world) :
  (native m w).2 = w.
Proof. unfold native. destruct m; reflexivity. Qed.

(** ** Objects *)

Lemma obj_get_set_eq {V : Type} (k : string) (v : V) (o : list (string * V)) :
  obj_get k (obj_set k v o) = Some v.
Proof.
  induction o as [|[k' v'] o IH]; simpl.
  - rewrite String.eqb_refl. reflexivity.
  - destruct (String.eqb k k') eqn:E; simpl.
    + rewrite String.eqb_refl. reflexivity.
    + rewrite E. exact IH.
Qed.

Lemma obj_get_set_ne {V : Type} (k k' : string) (v : V)
    (o : list (string * V)) :
  k ≠ k' -> obj_get k' (obj_set k v o) = obj_get k' o.
Proof.
  intros Hne. induction o as [|[k0 v0] o IH]; simpl.
  - destruct (String.eqb_spec k' k); [congruence | reflexivity].
  - destruct (String.eqb_spec k k0) as [->|Hk0]; simpl.
    + destruct (String.eqb_spec k' k0); [congruence | reflexivity].
    + destruct (String.eqb_spec k' k0); [reflexivity | exact IH].
Qed.

(** The names of the properties after an assignment. *)
Lemma obj_set_keys {V : Type} (k : string) (v : V) (o : list (string * V)) :
  (obj_set k v o).*1 = if decide (k ∈ o.*1) then o.*1 else o.*1 ++ [k].
Proof.
  induction o as [|[k' v'] o IH]; [reflexivity|]. cbn [obj_set].
  destruct (String.eqb_spec k k') as [->|Hne]; rewrite !fmap_cons; cbn [fst].
  - rewrite decide_True by left. reflexivity.
  - rewrite IH. destruct (decide (k ∈ o.*1)) as [Hin|Hnin].
    + rewrite decide_True by (right; exact Hin). reflexivity.
    + rewrite decide_False; [reflexivity|].
      intros Hin. apply elem_of_cons in Hin as [?|?]; congruence.
Qed.

(** Assignments keep the names of an object pairwise distinct. *)
Lemma obj_set_NoDup {V : Type} (k : string) (v : V) (o : list (string * V)) :
  NoDup o.*1 -> NoDup (obj_set k v o).*1.
Proof.
  intros Hnd. rewrite obj_set_keys. destruct (decide (k ∈ o.*1)); [exact Hnd|].
  apply NoDup_app. split; [exact Hnd|]. split; [|apply NoDup_singleton].
  intros x Hx Hk. apply list_elem_of_singleton in Hk as ->. contradiction.
Qed.

Lemma obj_spread_NoDup {V : Type} (acc o : list (string * V)) :
  NoDup acc.*1 -> NoDup (obj_spread acc o).*1.
Proof.
  unfold obj_spread. revert acc.
  induction o as [|[k v] o IH]; intros acc Hacc; simpl; [exact Hacc|].
  apply IH, obj_set_NoDup, Hacc.
Qed.

(** ** [createApiInstance], [extend], [getApi] *)

(** With a [hooks] object of the caller: that very object is written to. *)
Lemma createApiInstance_given (args : ApiArgs) (w : world) (l : loc) :
  ko_hooks (default empty_KyOptions (kyOptions args)) = Some l ->
  let o := default empty_hooks (heap w !! l) in
  createApiInstance args w =
  (Normal (adapter_of args l (default [] (beforeError o) ++ [Normalizer])),
   mkWorld (<[l := pushed o]> (heap w)) (sent w) (normalized w)).
Proof.
  intros Hl. unfold createApiInstance. rewrite Hl. reflexivity.
Qed.

(** Without one: a fresh object, and no other is touched. *)
Lemma createApiInstance_fresh (args : ApiArgs) (w : world) :
  ko_hooks (default empty_KyOptions (kyOptions args)) = None ->
  let l := fresh (dom (heap w)) in
  createApiInstance args w =
  (Normal (adapter_of args l [Normalizer]),
   mkWorld (<[l := pushed empty_hooks]> (<[l := empty_hooks]> (heap w)))
     (sent w) (normalized w)).
Proof.
  intros Hl. unfold createApiInstance. rewrite Hl.
  unfold mbind, M_bind, alloc, load, store, mret, M_ret. simpl.
  rewrite lookup_insert_eq. reflexivity.
Qed.

(** In both cases it returns, with the recorders as they were. *)
Lemma createApiInstance_returns (args : ApiArgs) (w : world) :
  ∃ l arr h,
    createApiInstance args w =
    (Normal (adapter_of args l arr), mkWorld h (sent w) (normalized w)).
Proof.
  destruct (ko_hooks (default empty_KyOptions (kyOptions args))) as [l|] eqn:E.
  - rewrite (createApiInstance_given _ _ _ E). eauto.
  - rewrite (createApiInstance_fresh _ _ E). eauto.
Qed.

Lemma extend_unfold (a : ApiInstanceAdapter) (overrides : RequestOpts) :
  extend a overrides = createApiInstance (extend_args a overrides).
Proof. reflexivity. Qed.

Lemma getApi_returns (this : OpenAIClient) (opts : option RequestOpts)
    (w : world) :
  ∃ a h, getApi this opts w = (Normal a, mkWorld h (sent w) (normalized w))
         ∧ match opts with
           | Some o => ∃ l arr, a = adapter_of (extend_args (api this) o) l arr
           | None => a = api this
           end.
Proof.
  destruct opts as [o|]; simpl.
  - rewrite extend_unfold.
    destruct (createApiInstance_returns (extend_args (api this) o) w)
      as (l & arr & h & ->). eauto 8.
  - exists (api this), (heap w). destruct w; simpl. eauto.
Qed.

(** ** [post] *)

Section PostFacts.
Context (H : host).

Lemma run_beforeError_sent (hooks : list hook) (error : js_error) (w : world) :
  sent (run_beforeError H hooks error w).2 = sent w.
Proof.
  revert error w. induction hooks as [|[f|] hooks IH]; intros error w; simpl.
  - reflexivity.
  - apply IH.
  - rewrite !M_bind_unfold. unfold record_normalized, native. simpl.
    destruct (normalize H error) as [e'|e']; simpl; [|reflexivity].
    rewrite M_bind_unfold. simpl. rewrite IH. reflexivity.
Qed.

Lemma current_beforeError_returns (ky : KyInstance) (w : world) :
  ∃ hooks, current_beforeError H ky w = (Normal hooks, w).
Proof.
  unfold current_beforeError. destruct (ky_copies_hooks H); simpl; eauto.
Qed.

(** For an input that does not begin with a slash [ky_post] is the one
    attempt. *)
Lemma ky_post_accepted (ky : KyInstance) (path : string) (o : PostOpts) :
  starts_with_slash path = false ->
  ky_post H ky path o
  = (record_request (ky_request ky path o);;
     if ok (fetch H (ky_request ky path o))
     then mret (fetch H (ky_request ky path o))
     else hooks ← current_beforeError H ky;
          error ← run_beforeError H hooks
                    (HTTPError (fetch H (ky_request ky path o)));
          throw error).
Proof. intros Hpath. unfold ky_post. rewrite Hpath. reflexivity. Qed.

(** For an input that ky accepts, [ky_post] hands exactly one request to
    [fetch], whatever the answer. *)
Lemma ky_post_sent (ky : KyInstance) (path : string) (o : PostOpts)
    (w : world) :
  starts_with_slash path = false ->
  sent (ky_post H ky path o w).2 = sent w ++ [ky_request ky path o].
Proof.
  intros Hpath. rewrite (ky_post_accepted _ _ _ Hpath).
  rewrite M_bind_unfold. unfold record_request at 1. simpl.
  destruct (ok (fetch H (ky_request ky path o))); [reflexivity|].
  rewrite M_bind_unfold.
  destruct (current_beforeError_returns ky
              (mkWorld (heap w) (sent w ++ [ky_request ky path o])
                 (normalized w))) as [hooks ->].
  rewrite M_bind_unfold.
  pose proof (run_beforeError_sent hooks
                (HTTPError (fetch H (ky_request ky path o)))
                (mkWorld (heap w) (sent w ++ [ky_request ky path o])
                   (normalized w))) as Hs.
  destruct (run_beforeError H hooks _ _) as [[e|e] w']; exact Hs.
Qed.

Lemma post_sent (a : ApiInstanceAdapter) (path : string) (o : PostOpts)
    (w : world) :
  starts_with_slash (strip_slash path) = false ->
  sent (post H a path o w).2
  = sent w ++ [ky_request (a_kyBase a) (strip_slash path) o].
Proof.
  intros Hpath. unfold post. rewrite (ky_post_sent _ _ _ _ Hpath).
  destruct o; reflexivity.
Qed.

Lemma res_text_world (res : Response) (w : world) : (res_text res w).2 = w.
Proof. apply native_world. Qed.

Lemma res_json_world (res : Response) (w : world) : (res_json H res w).2 = w.
Proof.
  unfold res_json. rewrite M_bind_unfold.
  pose proof (res_text_world res w) as Ht.
  destruct (res_text res w) as [[t|e] w']; simpl in *; subst w'.
  - apply native_world.
  - reflexivity.
Qed.

Lemma pipeThrough_world {T : Type} (res : Response) (f : json -> T)
    (w : world) :
  (pipeThrough H res f w).2 = w.
Proof. unfold pipeThrough. destruct (body res); reflexivity. Qed.

(** The shape every JSON endpoint has: [getApi], one [post], then reading
    the response. Its requests are those before it and the one of [post]. *)
Lemma call_sent {A : Type} (this : OpenAIClient) (opts : option RequestOpts)
    (path : string) (po : PostOpts) (k : Response -> M A) (w : world) :
  starts_with_slash (strip_slash path) = false ->
  (∀ r w', (k r w').2 = w') ->
  ∃ a, (match opts with
        | Some o => ∃ l arr, a = adapter_of (extend_args (api this) o) l arr
        | None => a = api this
        end)
       ∧ sent ((a ← getApi this opts; r ← post H a path po; k r) w).2
         = sent w ++ [ky_request (a_kyBase a) (strip_slash path) po].
Proof.
  intros Hpath Hk.
  destruct (getApi_returns this opts w) as (a & h & Hget & Ha).
  exists a. split; [exact Ha|].
  rewrite M_bind_unfold, Hget. rewrite bind_sent.
  - rewrite (post_sent _ _ _ _ Hpath). reflexivity.
  - intros r w'. rewrite Hk. reflexivity.
Qed.

End PostFacts.

(** ** The client: what is sent *)

Section ClientFacts.
Context (H : host).

(** C8. For every transcription call whose params have no [file] field,
    [createTranscription] throws before any HTTP request is issued: the
    call ends in the error "Transcription requires a file" and leaves the
    world, hence the recorder of the requests handed to the transport,
    exactly as it was. *)
Theorem createTranscription_requires_file (this : OpenAIClient)
    (params : TranscriptionParams) (opts : option RequestOpts) (w : world) :
  tp_file params = VUndefined ->
  createTranscription H this params opts w
  = (Throw (Native (mkError "Transcription requires a file")), w).
Proof.
  intros Hfile. unfold createTranscription. rewrite Hfile. reflexivity.
Qed.

(** The same holds for every falsy [file]: [null], [false], [0], [NaN] and
    the empty string. *)
Lemma createTranscription_falsy_file (this : OpenAIClient)
    (params : TranscriptionParams) (opts : option RequestOpts) (w : world) :
  truthy (tp_file params) = false ->
  sent (createTranscription H this params opts w).2 = sent w.
Proof.
  intros Hfile. unfold createTranscription. rewrite Hfile. reflexivity.
Qed.

(** The body of the two streaming calls has one [stream] property, and it
    is [true]. *)
Lemma stream_body (params : list (string * json)) :
  let o := obj_set "stream" (JBool true) (obj_spread [] params) in
  obj_get "stream" o = Some (JBool true) ∧ NoDup o.*1.
Proof.
  split; [apply obj_get_set_eq|].
  apply obj_set_NoDup, obj_spread_NoDup, NoDup_nil_2.
Qed.

(** C10. For every params value passed to [streamChatCompletion] or
    [streamCompletion], the one request the call sends carries a JSON body
    whose [stream] property is [true] (and which has no second property of
    that name), whether the params omit [stream] or set it to anything
    else. *)
Theorem stream_calls_send_stream_true (this : OpenAIClient)
    (params : list (string * json)) (opts : option RequestOpts) (w : world) :
  (∃ req o,
      sent (streamChatCompletion H this params opts w).2 = sent w ++ [req]
      ∧ req_path req = "chat/completions"
      ∧ req_json req = Some (JObject o)
      ∧ obj_get "stream" o = Some (JBool true)
      ∧ NoDup o.*1)
  ∧ (∃ req o,
      sent (streamCompletion H this params opts w).2 = sent w ++ [req]
      ∧ req_path req = "completions"
      ∧ req_json req = Some (JObject o)
      ∧ obj_get "stream" o = Some (JBool true)
      ∧ NoDup o.*1).
Proof.
  split.
  - unfold streamChatCompletion.
    edestruct (call_sent H this opts "chat/completions"
                 (json_opts (JObject (obj_set "stream" (JBool true)
                                        (obj_spread [] params))))
                 (λ r, pipeThrough H r (λ x : json, x)) w) as (a & _ & ->).
    { reflexivity. }
    { intros r w'. apply pipeThrough_world. }
    eexists _, _. split; [reflexivity|]. simpl.
    split; [reflexivity|]. split; [reflexivity|]. apply stream_body.
  - unfold streamCompletion.
    edestruct (call_sent H this opts "completions"
                 (json_opts (JObject (obj_set "stream" (JBool true)
                                        (obj_spread [] params))))
                 (λ r, pipeThrough H r (λ x : json, x)) w) as (a & _ & ->).
    { reflexivity. }
    { intros r w'. apply pipeThrough_world. }
    eexists _, _. split; [reflexivity|]. simpl.
    split; [reflexivity|]. split; [reflexivity|]. apply stream_body.
Qed.

(** The params that set [stream] to [false], and those that omit it. *)
Example stream_body_examples :
  obj_set "stream" (JBool true)
    (obj_spread [] [("model", JString "gpt-4o"); ("stream", JBool false);
                    ("n", JNumber 1%float)])
  = [("model", JString "gpt-4o"); ("stream", JBool true);
     ("n", JNumber 1%float)]
  ∧ obj_set "stream" (JBool true) (obj_spread [] [("model", JString "gpt-4o")])
    = [("model", JString "gpt-4o"); ("stream", JBool true)].
Proof. split; reflexivity. Qed.

Lemma call_signal {A : Type} (this : OpenAIClient) (opts : option RequestOpts)
    (path : string) (po : PostOpts) (k : Response -> M A) (w : world) :
  starts_with_slash (strip_slash path) = false ->
  (∀ r w', (k r w').2 = w') ->
  po_signal po = None ->
  ∃ req,
    sent ((a ← getApi this opts; r ← post H a path po; k r) w).2
    = sent w ++ [req]
    ∧ req_signal req = None.
Proof.
  intros Hpath Hk Hsignal.
  destruct (call_sent H this opts path po k w Hpath Hk) as (a & _ & ->).
  eexists. split; [reflexivity|]. exact Hsignal.
Qed.

Lemma transcription_reader_world (rf : option string) (r : Response)
    (w : world) :
  ((if bool_decide (rf = Some "text" ∨ rf = Some "srt" ∨ rf = Some "vtt")
    then t ← res_text r; mret (TranscriptionText t)
    else v ← res_json H r; mret (TranscriptionJson v)) w).2 = w.
Proof.
  case_bool_decide.
  - rewrite M_bind_unfold. pose proof (res_text_world r w) as Ht.
    destruct (res_text r w) as [[t|e] w']; exact Ht.
  - rewrite M_bind_unfold. pose proof (res_json_world H r w) as Ht.
    destruct (res_json H r w) as [[t|e] w']; exact Ht.
Qed.

(** C3. The cancellation signal of the per-call options never reaches the
    request: for every client, params, per-call headers and signal [s], the
    one request that a call sends carries no signal at all, whatever [s] is
    and whatever signal the client's own ky options hold; this is so for
    each of the eight methods. [extend] reads only the [headers] of its
    overrides, no method passes a [signal] to [post], and [post] hands ky
    an explicit [signal: undefined]. *)
Theorem per_call_signal_is_dropped (this : OpenAIClient)
    (params : list (string * json)) (tparams : TranscriptionParams)
    (hs : option (gmap string string)) (s : AbortSignal) (w : world) :
  let opts := Some (mkRequestOpts hs (Some s)) in
  Forall (λ w', ∃ req, sent w' = sent w ++ [req] ∧ req_signal req = None)
    [(createChatCompletion H this params opts w).2;
     (streamChatCompletion H this params opts w).2;
     (createCompletions H this params opts w).2;
     (streamCompletion H this params opts w).2;
     (createEmbeddings H this params opts w).2;
     (createModeration H this params opts w).2;
     (createSpeech H this params opts w).2]
  ∧ (truthy (tp_file tparams) = true ->
     ∃ req,
       sent (createTranscription H this tparams opts w).2 = sent w ++ [req]
       ∧ req_signal req = None).
Proof.
  intros opts. split.
  - repeat first
      [ apply Forall_nil_2
      | apply Forall_cons_2;
        [ apply call_signal;
          [ reflexivity
          | intros r w';
            first [apply res_json_world | apply res_text_world
                  |apply pipeThrough_world]
          | reflexivity ] | ] ].
  - intros Hfile. unfold createTranscription. rewrite Hfile. cbn [negb].
    apply call_signal; [reflexivity| |reflexivity].
    apply (transcription_reader_world (tp_response_format tparams)).
Qed.

Lemma append_if_cons (k : string) (x : option string)
    (e : string * form_value) (form : FormData) :
  append_if k x (e :: form) = e :: append_if k x form.
Proof.
  unfold append_if. destruct x as [v|]; [|reflexivity].
  destruct (str_truthy v); reflexivity.
Qed.

(** The form starts with the [file] entry. *)
Lemma transcription_form_file (params : TranscriptionParams) :
  obj_get "file" (transcription_form params)
  = Some (file_entry (tp_file params)).
Proof.
  unfold transcription_form. cbv zeta. simpl ([_] ++ [_]).
  rewrite !append_if_cons.
  destruct (tp_temperature params), (tp_stream params),
    (tp_chunking_strategy params) as [[]|]; reflexivity.
Qed.

(** C4, as the code has it. For every transcription call whose [file] is
    present (truthy) but is neither a Blob, nor an ArrayBuffer or a view,
    nor an object with a [data] property, [createTranscription] raises no
    validation error: it appends the value as it is to the [file] field of
    the form and sends the request to [audio/transcriptions]. *)
Theorem unrecognized_file_is_sent_as_is (this : OpenAIClient)
    (params : TranscriptionParams) (opts : option RequestOpts) (w : world) :
  unrecognized (tp_file params) = true ->
  ∃ req form,
    sent (createTranscription H this params opts w).2 = sent w ++ [req]
    ∧ req_path req = "audio/transcriptions"
    ∧ req_body req = Some form
    ∧ obj_get "file" form = Some (FormToString (tp_file params)).
Proof.
  unfold unrecognized. intros Hu.
  apply andb_prop in Hu as [Hu Hdata]. apply andb_prop in Hu as [Hu Hbuf].
  apply andb_prop in Hu as [Htruthy Hblob].
  apply negb_true_iff in Hdata, Hbuf, Hblob.
  unfold createTranscription. rewrite Htruthy. cbn [negb].
  edestruct (call_sent H this opts "audio/transcriptions"
               (mkPostOpts None (Some (transcription_form params)) (Some ∅)
                  None)
               (λ resp,
                  if bool_decide
                       (tp_response_format params = Some "text"
                        ∨ tp_response_format params = Some "srt"
                        ∨ tp_response_format params = Some "vtt")
                  then t ← res_text resp; mret (TranscriptionText t)
                  else v ← res_json H resp; mret (TranscriptionJson v))
               w) as (a & _ & ->).
  { reflexivity. }
  { intros r w'. case_bool_decide.
    - rewrite M_bind_unfold. pose proof (res_text_world r w') as Ht.
      destruct (res_text r w') as [[t|e] w'']; exact Ht.
    - rewrite M_bind_unfold. pose proof (res_json_world H r w') as Ht.
      destruct (res_json H r w') as [[t|e] w'']; exact Ht. }
  eexists _, _. split; [reflexivity|]. simpl.
  split; [reflexivity|]. split; [reflexivity|].
  rewrite transcription_form_file. unfold file_entry.
  rewrite Hblob, Hbuf, Hdata. reflexivity.
Qed.

End ClientFacts.

(** The example client is the one the constructor makes. *)
Example new_OpenAIClient_example (H : host) :
  new_OpenAIClient ∅ (mkConfigOpts (Some "sk-test") None None None) empty_world
  = (Normal example_client, example_world).
Proof. reflexivity. Qed.

Lemma createTranscription_requires_file_witness :
  tp_file (params_with_file VUndefined) = VUndefined
  ∧ createTranscription (reference_host (server_ok "{}")) example_client
      (params_with_file VUndefined) None example_world
    = (Throw (Native (mkError "Transcription requires a file")),
       example_world).
Proof.
  split; [reflexivity|].
  apply (createTranscription_requires_file (reference_host (server_ok "{}"))
           example_client (params_with_file VUndefined) None example_world).
  reflexivity.
Defined.

(** C4 fails on the code: a file given as a string (a path, say) is none of
    the recognised representations, and the call does not throw before the
    request; it sends the request and returns the server's answer. *)
Lemma unrecognized_file_is_not_rejected :
  unrecognized (VString "recording.wav") = true
  ∧ ¬ throws_before_any_request (reference_host (server_ok "{}"))
        example_client (params_with_file (VString "recording.wav")) None
        example_world.
Proof.
  split; [reflexivity|].
  intros (e & w' & Hcall & _). vm_compute in Hcall. discriminate Hcall.
Qed.

Lemma per_call_signal_is_dropped_witness :
  let H := reference_host (server_ok "{}") in
  let this :=
    mkClient
      (adapter_of
         (mkApiArgs "sk-test" None None
            (Some (mkKyOptions None None None None None (Some (Signal 1)))))
         1%positive [Normalizer]) in
  ∃ req,
    sent (createChatCompletion H this []
            (Some (mkRequestOpts None (Some (Signal 7)))) example_world).2
    = sent example_world ++ [req]
    ∧ req_signal req = None.
Proof.
  intros H this.
  destruct (per_call_signal_is_dropped H this []
              (params_with_file VUndefined) None (Signal 7) example_world)
    as [Hall _].
  exact (Forall_inv Hall).
Defined.

Lemma unrecognized_file_is_sent_as_is_witness :
  unrecognized (VString "recording.wav") = true
  ∧ ∃ req form,
      sent (createTranscription (reference_host (server_ok "{}"))
              example_client (params_with_file (VString "recording.wav"))
              None example_world).2 = sent example_world ++ [req]
      ∧ req_path req = "audio/transcriptions"
      ∧ req_body req = Some form
      ∧ obj_get "file" form = Some (FormToString (VString "recording.wav")).
Proof.
  split; [reflexivity|].
  apply (unrecognized_file_is_sent_as_is (reference_host (server_ok "{}"))
           example_client (params_with_file (VString "recording.wav")) None
           example_world).
  reflexivity.
Defined.

(** ** The error normaliser *)

Lemma append_empty_r (s : string) : s +:+ "" = s.
Proof.
  induction s as [|c s IH]; [reflexivity|].
  change (String c (s +:+ "") = String c s). f_equal. exact IH.
Qed.

Lemma append_assoc (a b c : string) : (a +:+ b) +:+ c = a +:+ (b +:+ c).
Proof.
  induction a as [|x a IH]; [reflexivity|].
  change (String x ((a +:+ b) +:+ c) = String x (a +:+ (b +:+ c))).
  f_equal. exact IH.
Qed.

(** [parseHeaders] always returns: the [catch] covers the whole body. *)
Lemma parseHeaders_returns (h : HeadersInit) :
  parseHeaders h
  = Normal (match parseHeaders_try h with Normal m => m | Throw _ => ∅ end).
Proof. unfold parseHeaders, catch. destruct (parseHeaders_try h); reflexivity. Qed.

Lemma spread_items_pairs (l : list (string * string)) :
  spread_items (map (λ kv, ItemArray [kv.1; kv.2]) l)
  = Normal (map (λ kv, [kv.1; kv.2]) l).
Proof.
  induction l as [|kv l IH]; simpl; [reflexivity|].
  rewrite IH. reflexivity.
Qed.

Lemma fromEntries_fold (es : list (list string))
    (m : gmap string (option string)) :
  fold_left (λ m xs, <[(entry_of xs).1 := (entry_of xs).2]> m) es m
  = list_to_map (reverse (map entry_of es)) ∪ m.
Proof.
  revert m. induction es as [|xs es IH]; intros m; simpl.
  - rewrite (left_id_L ∅ (∪)). reflexivity.
  - rewrite IH, reverse_cons, list_to_map_app. simpl.
    rewrite <- (assoc_L (∪)). f_equal.
    rewrite insert_empty, <- insert_union_singleton_l. reflexivity.
Qed.

(** On a [Headers] object [parseHeaders] gives the record of its entries
    (of two entries with one name the later counts). *)
Lemma parseHeaders_Headers (l : list (string * string)) :
  parseHeaders (Headers l)
  = Normal (list_to_map (reverse (map (λ kv, (kv.1, Some kv.2)) l))).
Proof.
  rewrite parseHeaders_returns. unfold Headers, parseHeaders_try.
  rewrite spread_items_pairs. simpl. unfold fromEntries.
  rewrite fromEntries_fold, (right_id_L ∅ (∪)), map_map. reflexivity.
Qed.

Section NormalizeFacts.
Context (H : host).

Lemma safeJson_returns (t : string) :
  safeJson H t
  = Normal (match JSON_parse H t with Normal v => Some v | Throw _ => None end).
Proof. unfold safeJson. destruct (JSON_parse H t); reflexivity. Qed.

(** The closed form of the hook on an [HTTPError]. *)
Lemma normalize_HTTPError (r : Response) :
  normalize H (HTTPError r)
  = let hdrs :=
      match parseHeaders_try (headers r) with Normal m => m | Throw _ => ∅ end in
    match body r with
    | Some b =>
        if bodyUsed r
        then Throw (mkError "Response.clone: Body has already been consumed.")
        else
          let errText :=
            match read_error b with
            | None => join (chunks b)
            | Some e => message e
            end in
          let errorResponse :=
            get_error (match JSON_parse H errText with
                       | Normal v => Some v
                       | Throw _ => None
                       end) in
          Normal (APIError_
                    (mkAPIError (status r) errorResponse
                       (if from_option json_truthy false errorResponse
                        then None else Some errText)
                       hdrs))
    | None => Normal (APIError_ (mkAPIError (status r) None None hdrs))
    end.
Proof.
  unfold normalize. simpl response_of. cbv iota.
  rewrite parseHeaders_returns. cbn [mbind completion_bind].
  unfold clone, text.
  destruct (body r) as [b|] eqn:Hb; [|reflexivity].
  destruct (bodyUsed r) eqn:Hu; [reflexivity|].
  cbn [mbind completion_bind mret completion_ret]. rewrite Hb, Hu.
  destruct (read_error b) as [e|]; simpl;
    rewrite safeJson_returns; reflexivity.
Qed.

(** C5, as the code has it. For every failed HTTP response that has a body
    which can still be read, its text being [errText] (the body has not
    been consumed, and reading it does not fail): if [errText] parses as
    JSON of the shape [{"error": {...}}],
    the normalised error's parsed error object is that [error] field and its
    raw message is absent; if [errText] does not parse as JSON, or parses
    without an [error] field, the normalised error's message is [errText].
    In both cases the normalised error carries the response's status and
    the record [parseHeaders] makes of the response's headers, which for a
    [Headers] object is the record of its entries. *)
Theorem normalize_reads_error_body (r : Response) (b : body_stream)
    (errText : string) :
  body r = Some b ->
  text r = Normal errText ->
  ∃ hdrs,
    parseHeaders (headers r) = Normal hdrs
    ∧ (∀ l, headers r = Headers l ->
            hdrs = list_to_map (reverse (map (λ kv, (kv.1, Some kv.2)) l)))
    ∧ (∀ o e,
         JSON_parse H errText = Normal (JObject o) ->
         obj_get "error" o = Some (JObject e) ->
         normalize H (HTTPError r)
         = Normal (APIError_
                     (mkAPIError (status r) (Some (JObject e)) None hdrs)))
    ∧ ((∃ err, JSON_parse H errText = Throw err)
       ∨ (∃ v, JSON_parse H errText = Normal v ∧ get_error (Some v) = None) ->
       normalize H (HTTPError r)
       = Normal (APIError_
                   (mkAPIError (status r) None (Some errText) hdrs))).
Proof.
  intros Hbody Htext.
  eexists. split; [apply parseHeaders_returns|].
  unfold text in Htext. rewrite Hbody in Htext.
  destruct (bodyUsed r) eqn:Hused; [discriminate|].
  assert (HerrText :
            match read_error b with
            | None => join (chunks b)
            | Some e => message e
            end = errText).
  { destruct (read_error b); [discriminate|].
    injection Htext as <-. reflexivity. }
  split; [|split].
  - intros l Hl. pose proof (parseHeaders_Headers l) as Hp.
    rewrite parseHeaders_returns, <- Hl in Hp. injection Hp as ->.
    reflexivity.
  - intros o e Hparse Herr.
    rewrite normalize_HTTPError, Hbody, Hused. cbv zeta.
    rewrite HerrText, Hparse. simpl get_error. rewrite Herr. reflexivity.
  - intros Hno. rewrite normalize_HTTPError, Hbody, Hused. cbv zeta.
    rewrite HerrText.
    destruct Hno as [[err ->]|(v & -> & ->)]; reflexivity.
Qed.

(** What the normaliser catches: a JSON-parse failure leaves the parsed
    body undefined, a failure while iterating the headers gives the empty
    headers record, and a read of the body that is rejected counts as a body
    whose text is the message of the cause. *)
Lemma normalize_degrades :
  (∀ t err, JSON_parse H t = Throw err -> safeJson H t = Normal None)
  ∧ (∀ h err, parseHeaders_try h = Throw err -> parseHeaders h = Normal ∅)
  ∧ (∀ r b cause,
       body r = Some b -> bodyUsed r = false -> read_error b = Some cause ->
       normalize H (HTTPError r)
       = normalize H (HTTPError
                        (mkResponse (status r) (headers r)
                           (Some (Body [message cause] None)) false))).
Proof.
  split; [|split].
  - intros t err Ht. rewrite safeJson_returns, Ht. reflexivity.
  - intros h err Hh. rewrite parseHeaders_returns, Hh. reflexivity.
  - intros r b cause Hbody Hused Hread. rewrite !normalize_HTTPError.
    simpl. rewrite Hbody, Hused, Hread, append_empty_r. reflexivity.
Qed.

(** C6 fails on the code for a response whose body has been read before the
    normaliser runs (by a [beforeError] hook of the caller, which ky runs
    first, or by an [afterResponse] hook): [response.clone()] then throws at
    once, outside the promise that [.catch] guards, and the error escapes
    the normaliser. For every status, headers value and body, the hook
    throws a [TypeError] on such a response. On every other input, a
    response with an unread body or none, or no response at all, it returns
    an error value and throws nothing. *)
Theorem normalize_throws_when_body_was_read :
  (∀ status headers b,
     normalize H (HTTPError (mkResponse status headers (Some b) true))
     = Throw (mkError "Response.clone: Body has already been consumed."))
  ∧ (∀ error, body_unread error -> ∃ e, normalize H error = Normal e).
Proof.
  split.
  - intros status headers b. rewrite normalize_HTTPError. reflexivity.
  - intros [r|e|e|c] Hunread; try (eexists; reflexivity).
    rewrite normalize_HTTPError. cbv zeta.
    unfold body_unread in Hunread. simpl in Hunread.
    destruct (body r) as [b|]; [|eexists; reflexivity].
    rewrite Hunread by eauto. eexists. reflexivity.
Qed.

End NormalizeFacts.

Lemma normalize_reads_error_body_witness :
  let H := reference_host (server_ok "{}") in
  let r := failed_response 401 error_body in
  let r' := failed_response 502 "Bad Gateway" in
  let hdrs : gmap string (option string) :=
    list_to_map [("content-type", Some "application/json")] in
  normalize H (HTTPError r)
  = Normal (APIError_
              (mkAPIError 401 (Some (JObject [("message", JString "bad")]))
                 None hdrs))
  ∧ normalize H (HTTPError r')
    = Normal (APIError_ (mkAPIError 502 None (Some "Bad Gateway") hdrs)).
Proof.
  intros H r r' hdrs.
  destruct (normalize_reads_error_body H r (Body [error_body] None)
              error_body eq_refl eq_refl)
    as (h1 & _ & Hh1 & Hshape & _).
  destruct (normalize_reads_error_body H r' (Body ["Bad Gateway"] None)
              "Bad Gateway" eq_refl eq_refl)
    as (h2 & _ & Hh2 & _ & Hraw).
  rewrite (Hh1 [("content-type", "application/json")] eq_refl) in Hshape.
  rewrite (Hh2 [("content-type", "application/json")] eq_refl) in Hraw.
  split.
  - apply (Hshape [("error", JObject [("message", JString "bad")])]
             [("message", JString "bad")]); vm_compute; reflexivity.
  - apply Hraw. left. exists (mkError "Unexpected token in JSON").
    reflexivity.
Defined.

Lemma normalize_throws_when_body_was_read_witness :
  let H := reference_host (server_ok "{}") in
  normalize H (HTTPError
                 (mkResponse 500 (Headers []) (Some (Body ["oops"] None)) true))
  = Throw (mkError "Response.clone: Body has already been consumed.")
  ∧ ∃ e, normalize H (HTTPError (failed_response 500 "oops")) = Normal e.
Proof.
  intros H.
  destruct (normalize_throws_when_body_was_read H) as [Hread Hunread].
  split; [apply Hread|].
  apply (Hunread (HTTPError (failed_response 500 "oops"))).
  intros _. reflexivity.
Defined.

(** C5 fails on the code as the claim states it, for every failed response
    that has a body: when the body, here the JSON
    [{"error": {"message": "bad"}}], has been read before the normaliser
    runs, the normaliser gives no error at all, with or without that
    [error] object: it throws. *)
Lemma normalize_cannot_read_a_consumed_body :
  let H := reference_host (server_ok "{}") in
  let r := mkResponse 401 (Headers [("content-type", "application/json")])
             (Some (Body [error_body] None)) true in
  is_Some (body r)
  ∧ JSON_parse H error_body
    = Normal (JObject [("error", JObject [("message", JString "bad")])])
  ∧ ¬ ∃ e, normalize H (HTTPError r) = Normal e.
Proof.
  intros H r. split; [eexists; reflexivity|].
  split; [vm_compute; reflexivity|].
  intros [e He]. vm_compute in He. discriminate He.
Qed.

(** With such a hook in the caller's [beforeError] array, which ky runs
    before the normaliser pushed behind it, a failed call ends in the
    [TypeError] instead of the structured error. *)
Example failed_call_after_body_was_read :
  let H := reference_host (λ _, failed_response 401 error_body) in
  let w := world_with_hooks (Some [UserHook reads_body]) in
  ((a ← createApiInstance
          (mkApiArgs "sk-test" None None (Some options_with_hooks));
    post H a "chat/completions" (mkPostOpts (Some (JObject [])) None None None))
     w).1
  = Throw (Native
             (mkError "Response.clone: Body has already been consumed.")).
Proof. vm_compute. reflexivity. Qed.

(** ** The stream chunk decoder *)

(** Induction that follows [split_frames]: one character more, or two. *)
Lemma string_ind2 (P : string -> Prop) :
  P EmptyString ->
  (∀ c, P (String c EmptyString)) ->
  (∀ c c' s, P s -> P (String c' s) -> P (String c (String c' s))) ->
  ∀ s, P s.
Proof.
  intros H0 H1 H2 s.
  assert (P s ∧ ∀ c, P (String c s)) as [Hs _]; [|exact Hs].
  induction s as [|c' s [IHs IHc]]; split; auto.
Qed.

Lemma split_frames_step (c c' : ascii) (s : string) :
  split_frames (String c (String c' s))
  = if Ascii.eqb c nl && Ascii.eqb c' nl
    then (EmptyString :: (split_frames s).1, (split_frames s).2)
    else push_char c (split_frames (String c' s)).
Proof. reflexivity. Qed.

(** Without a delimiter the whole string is the remainder. *)
Lemma split_frames_no_frame (s : string) :
  (split_frames s).1 = [] -> (split_frames s).2 = s.
Proof.
  induction s as [| c | c c' s _ IH] using string_ind2; try reflexivity.
  rewrite split_frames_step.
  destruct (Ascii.eqb c nl && Ascii.eqb c' nl); [discriminate|].
  unfold push_char.
  destruct (split_frames (String c' s)).1 as [|f fs] eqn:E; [|discriminate].
  intros _. cbn [snd]. rewrite (IH eq_refl). reflexivity.
Qed.

(** The frames of [s +:+ t] are those of [s], then those of what [s] left
    over followed by [t]: a delimiter is found where it is, however the text
    is cut. *)
Lemma split_frames_app (s t : string) :
  split_frames (s +:+ t)
  = ((split_frames s).1 ++ (split_frames ((split_frames s).2 +:+ t)).1,
     (split_frames ((split_frames s).2 +:+ t)).2).
Proof.
  induction s as [| c | c c' s IH2 IH1] using string_ind2.
  - exact (surjective_pairing (split_frames t)).
  - exact (surjective_pairing (split_frames (String c "" +:+ t))).
  - change (String c (String c' s) +:+ t)
      with (String c (String c' (s +:+ t))).
    rewrite !split_frames_step.
    destruct (Ascii.eqb c nl && Ascii.eqb c' nl) eqn:E.
    + rewrite IH2. reflexivity.
    + change (String c' (s +:+ t)) with (String c' s +:+ t).
      unfold push_char at 2 3 4.
      destruct (split_frames (String c' s)).1 as [|f fs] eqn:Ef.
      * cbn [fst snd].
        rewrite (split_frames_no_frame _ Ef).
        change (String c (String c' s) +:+ t)
          with (String c (String c' (s +:+ t))).
        rewrite split_frames_step, E.
        exact (surjective_pairing
                 (push_char c (split_frames (String c' (s +:+ t))))).
      * rewrite IH1. reflexivity.
Qed.

Section DecoderFacts.
Context (H : host) {T : Type} (f : json -> T).

Lemma on_payload_buffer (d : decoder T) (p : string) :
  buffer (on_payload H f d p) = buffer d.
Proof.
  unfold on_payload. destruct (dstatus d); try reflexivity.
  destruct (String.eqb p "[DONE]"); [reflexivity|].
  destruct (JSON_parse H p); reflexivity.
Qed.

Lemma on_payload_stopped (d : decoder T) (p : string) :
  dstatus d ≠ Running -> on_payload H f d p = d.
Proof. unfold on_payload. destruct (dstatus d); congruence. Qed.

Lemma on_payload_yielded (d : decoder T) (p : string) :
  yielded d `prefix_of` yielded (on_payload H f d p).
Proof.
  unfold on_payload. destruct (dstatus d); try reflexivity.
  destruct (String.eqb p "[DONE]"); [reflexivity|].
  destruct (JSON_parse H p); simpl; [apply prefix_app_r|]; reflexivity.
Qed.

(** A decode error is final. *)
Lemma on_payload_failed (d : decoder T) (p : string) (e : Error) :
  dstatus d = Failed e -> dstatus (on_payload H f d p) = Failed e.
Proof. intros Hd. rewrite on_payload_stopped; congruence. Qed.

Lemma on_frame_buffer (d : decoder T) (fr : string) :
  buffer (on_frame H f d fr) = buffer d.
Proof.
  unfold on_frame. revert d.
  induction (omap payload (split_lines fr)) as [|p ps IH]; intros d; simpl;
    [reflexivity|]. rewrite IH. apply on_payload_buffer.
Qed.

Lemma on_frame_stopped (d : decoder T) (fr : string) :
  dstatus d ≠ Running -> on_frame H f d fr = d.
Proof.
  unfold on_frame. revert d.
  induction (omap payload (split_lines fr)) as [|p ps IH]; intros d Hd; simpl;
    [reflexivity|]. rewrite (on_payload_stopped d p Hd). apply IH, Hd.
Qed.

Lemma on_frame_yielded (d : decoder T) (fr : string) :
  yielded d `prefix_of` yielded (on_frame H f d fr).
Proof.
  unfold on_frame. revert d.
  induction (omap payload (split_lines fr)) as [|p ps IH]; intros d; simpl;
    [reflexivity|]. etrans; [apply on_payload_yielded | apply IH].
Qed.

Lemma frames_buffer (d : decoder T) (frs : list string) :
  buffer (fold_left (on_frame H f) frs d) = buffer d.
Proof.
  revert d. induction frs as [|fr frs IH]; intros d; simpl; [reflexivity|].
  rewrite IH. apply on_frame_buffer.
Qed.

Lemma frames_stopped (d : decoder T) (frs : list string) :
  dstatus d ≠ Running -> fold_left (on_frame H f) frs d = d.
Proof.
  revert d. induction frs as [|fr frs IH]; intros d Hd; simpl; [reflexivity|].
  rewrite (on_frame_stopped d fr Hd). apply IH, Hd.
Qed.

Lemma frames_yielded (d : decoder T) (frs : list string) :
  yielded d `prefix_of` yielded (fold_left (on_frame H f) frs d).
Proof.
  revert d. induction frs as [|fr frs IH]; intros d; simpl; [reflexivity|].
  etrans; [apply on_frame_yielded | apply IH].
Qed.

Lemma transform_stopped (d : decoder T) (c : string) :
  dstatus d ≠ Running -> transform H f d c = d.
Proof. unfold transform. destruct (dstatus d); congruence. Qed.

Lemma transform_yielded (d : decoder T) (c : string) :
  yielded d `prefix_of` yielded (transform H f d c).
Proof.
  unfold transform. destruct (dstatus d); try reflexivity.
  pose proof (frames_yielded (mkDecoder "" (yielded d) Running)
                (split_frames (buffer d +:+ c)).1) as Hp.
  destruct (dstatus (fold_left _ _ _)); exact Hp.
Qed.

Lemma transform_running (d : decoder T) (c : string) :
  dstatus d = Running ->
  transform H f d c
  = match dstatus (fold_left (on_frame H f) (split_frames (buffer d +:+ c)).1
                     (mkDecoder "" (yielded d) Running)) with
    | Running =>
        mkDecoder (split_frames (buffer d +:+ c)).2
          (yielded (fold_left (on_frame H f) (split_frames (buffer d +:+ c)).1
                      (mkDecoder "" (yielded d) Running)))
          Running
    | st =>
        mkDecoder ""
          (yielded (fold_left (on_frame H f) (split_frames (buffer d +:+ c)).1
                      (mkDecoder "" (yielded d) Running)))
          st
    end.
Proof. intros Hd. unfold transform. rewrite Hd. reflexivity. Qed.

(** Two chunks in a row are decoded as their concatenation in one piece. *)
Lemma transform_app (d : decoder T) (c1 c2 : string) :
  transform H f (transform H f d c1) c2 = transform H f d (c1 +:+ c2).
Proof.
  destruct (dstatus d) eqn:Hd;
    [|rewrite !(transform_stopped d) by congruence; reflexivity ..].
  rewrite (transform_running d (c1 +:+ c2) Hd), (transform_running d c1 Hd).
  rewrite <- (append_assoc (buffer d) c1 c2).
  rewrite (split_frames_app (buffer d +:+ c1) c2).
  set (p1 := split_frames (buffer d +:+ c1)).
  cbn [fst snd]. rewrite fold_left_app.
  set (d1 := fold_left (on_frame H f) p1.1 (mkDecoder "" (yielded d) Running)).
  assert (Hb : buffer d1 = "") by apply frames_buffer.
  destruct (dstatus d1) eqn:Hs.
  - rewrite transform_running by reflexivity. cbn [buffer yielded].
    replace (mkDecoder "" (yielded d1) Running) with d1; [reflexivity|].
    destruct d1; simpl in *; congruence.
  - rewrite transform_stopped by (simpl; congruence).
    rewrite frames_stopped by congruence. rewrite Hs. reflexivity.
  - rewrite transform_stopped by (simpl; congruence).
    rewrite frames_stopped by congruence. rewrite Hs. reflexivity.
Qed.

Lemma feed_join (cs : list string) (d : decoder T) (c : string) :
  fold_left (transform H f) cs (transform H f d c)
  = transform H f d (c +:+ join cs).
Proof.
  revert c. induction cs as [|c' cs IH]; intros c; simpl.
  - rewrite append_empty_r. reflexivity.
  - rewrite transform_app, IH, append_assoc. reflexivity.
Qed.

(** However the bytes are cut into chunks, the decoder does what it does on
    the whole text in one chunk. *)
Lemma chunker_join (cs : list string) :
  StreamCompletionChunker H f cs
  = flush (transform H f (mkDecoder "" [] Running) (join cs)).
Proof.
  unfold StreamCompletionChunker. destruct cs as [|c cs]; [reflexivity|].
  simpl fold_left. rewrite feed_join. reflexivity.
Qed.

(** A stream cut short: what is yielded is the beginning of what the whole
    stream yields, and when the whole stream decodes without an error, so
    does the part. *)
Lemma chunker_truncated (cs : list string) (rest : string) :
  let whole := transform H f (mkDecoder "" [] Running) (join cs +:+ rest) in
  yielded (StreamCompletionChunker H f cs) `prefix_of` yielded whole
  ∧ ((∀ e, dstatus whole ≠ Failed e) ->
     dstatus (StreamCompletionChunker H f cs) = Terminated).
Proof.
  intros whole. rewrite chunker_join.
  set (part := transform H f (mkDecoder "" [] Running) (join cs)).
  assert (Hw : whole = transform H f part rest)
    by (unfold whole, part; rewrite transform_app; reflexivity).
  split.
  - rewrite Hw. etrans; [|apply transform_yielded].
    unfold flush. destruct (dstatus part); reflexivity.
  - intros Hok. unfold flush.
    destruct (dstatus part) as [| |e] eqn:Hp; [reflexivity | exact Hp |].
    exfalso. apply (Hok e). rewrite Hw, transform_stopped; congruence.
Qed.

(** C7. For every byte stream whose content is
    [data: {"id":1}\n\ndata: {"id":2}\n\ndata: [DONE]\n\n], and for every
    way of cutting that content into chunks, the decoder yields the two
    mapped JSON values, in the order of the frames, and then ends the
    sequence. When the stream closes earlier, after any part of that content
    cut in any way, the sequence ends without an error, having yielded the
    values of the frames received so far. *)
Theorem chunker_example_stream (v1 v2 : json) :
  JSON_parse H (id_payload "1") = Normal v1 ->
  JSON_parse H (id_payload "2") = Normal v2 ->
  (∀ cs, join cs = example_stream ->
         StreamCompletionChunker H f cs
         = mkDecoder "" [f v1; f v2] Terminated)
  ∧ (∀ cs rest, join cs +:+ rest = example_stream ->
       dstatus (StreamCompletionChunker H f cs) = Terminated
       ∧ yielded (StreamCompletionChunker H f cs) `prefix_of` [f v1; f v2]).
Proof.
  intros H1 H2.
  assert (Hwhole : transform H f (mkDecoder "" [] Running) example_stream
                   = mkDecoder "" [f v1; f v2] Terminated).
  { unfold transform. cbn [dstatus buffer yielded].
    replace (split_frames ("" +:+ example_stream))
      with (["data: " +:+ id_payload "1"; "data: " +:+ id_payload "2";
             "data: [DONE]"], "") by (vm_compute; reflexivity).
    cbn [fst snd fold_left]. unfold on_frame.
    replace (omap payload (split_lines ("data: " +:+ id_payload "1")))
      with [id_payload "1"] by (vm_compute; reflexivity).
    replace (omap payload (split_lines ("data: " +:+ id_payload "2")))
      with [id_payload "2"] by (vm_compute; reflexivity).
    replace (omap payload (split_lines "data: [DONE]"))
      with ["[DONE]"] by (vm_compute; reflexivity).
    cbn [fold_left]. unfold on_payload. cbn [dstatus buffer yielded].
    replace (String.eqb (id_payload "1") "[DONE]") with false
      by (vm_compute; reflexivity).
    rewrite H1. cbn [dstatus buffer yielded].
    replace (String.eqb (id_payload "2") "[DONE]") with false
      by (vm_compute; reflexivity).
    rewrite H2. cbn [dstatus buffer yielded].
    replace (String.eqb "[DONE]" "[DONE]") with true
      by (vm_compute; reflexivity).
    reflexivity. }
  split.
  - intros cs Hcs. rewrite chunker_join, Hcs, Hwhole. reflexivity.
  - intros cs rest Hcs.
    destruct (chunker_truncated cs rest) as [Hpre Hst].
    rewrite Hcs, Hwhole in Hpre, Hst. split; [|exact Hpre].
    apply Hst. intros e. discriminate.
Qed.

End DecoderFacts.

Lemma chunker_example_stream_witness :
  let H := reference_host (server_ok "{}") in
  let v1 := JObject [("id", JNumber 1%float)] in
  let v2 := JObject [("id", JNumber 2%float)] in
  StreamCompletionChunker H (λ v, v) example_chunks
  = mkDecoder "" [v1; v2] Terminated
  ∧ dstatus (StreamCompletionChunker H (λ v, v) (take 2 example_chunks))
    = Terminated
  ∧ yielded (StreamCompletionChunker H (λ v, v) (take 2 example_chunks))
    `prefix_of` [v1; v2].
Proof.
  intros H v1 v2.
  assert (H1 : JSON_parse H (id_payload "1") = Normal v1)
    by (vm_compute; reflexivity).
  assert (H2 : JSON_parse H (id_payload "2") = Normal v2)
    by (vm_compute; reflexivity).
  destruct (chunker_example_stream H (λ v, v) v1 v2 H1 H2) as [Hall Hcut].
  split.
  - apply Hall. vm_compute. reflexivity.
  - apply (Hcut (take 2 example_chunks) (join (drop 2 example_chunks))).
    vm_compute. reflexivity.
Defined.

(** The same through the client: a server that streams the example in four
    chunks. *)
Example streamChatCompletion_example :
  (streamChatCompletion
     (reference_host
        (λ _, mkResponse 200 (Headers []) (Some (Body example_chunks None))
                false))
     example_client [("model", JString "gpt-4o")] None example_world).1
  = Normal (mkDecoder ""
              [JObject [("id", JNumber 1%float)];
               JObject [("id", JNumber 2%float)]]
              Terminated).
Proof. vm_compute. reflexivity. Qed.

(** ** [extend] and the parent adapter *)

(** What [extend] keeps: the API key, the organisation, the base URL. *)
Lemma extend_args_identity (a : ApiInstanceAdapter) (overrides : RequestOpts) :
  apiKey (extend_args a overrides) = a_apiKey a
  ∧ organizationId (extend_args a overrides) = a_organizationId a
  ∧ baseUrl (extend_args a overrides)
    = Some (str_or (a_baseUrl a)
              (str_or (ko_prefixUrl (a_kyOptions a)) DEFAULT_BASE_URL)).
Proof. repeat split. Qed.

Lemma str_or_truthy (a : option string) (b : string) :
  str_truthy b = true -> str_truthy (str_or a b) = true.
Proof.
  intros Hb. unfold str_or. destruct a as [s|]; [|exact Hb].
  destruct (str_truthy s) eqn:E; [exact E | exact Hb].
Qed.

Lemma str_or_idem (a : option string) (b c : string) :
  str_truthy b = true -> str_or (Some (str_or a b)) c = str_or a b.
Proof.
  intros Hb. unfold str_or at 1. rewrite (str_or_truthy a b Hb). reflexivity.
Qed.

(** The derived instance talks to the base URL of its parent. *)
Lemma extend_prefixUrl (args : ApiArgs) (l l' : loc) (arr arr' : list hook)
    (overrides : RequestOpts) :
  ky_prefixUrl
    (a_kyBase (adapter_of (extend_args (adapter_of args l arr) overrides)
                 l' arr'))
  = ky_prefixUrl (a_kyBase (adapter_of args l arr)).
Proof.
  simpl. apply str_or_idem, str_or_truthy. reflexivity.
Qed.

(** The header record of the derived adapter: the overrides laid over the
    parent's headers. *)
Lemma extend_headers (a : ApiInstanceAdapter) (overrides : RequestOpts)
    (k : string) :
  default ∅ (ko_headers (default empty_KyOptions
                           (kyOptions (extend_args a overrides)))) !! k
  = match default ∅ (ro_headers overrides) !! k with
    | Some v => Some v
    | None => default ∅ (ko_headers (a_kyOptions a)) !! k
    end.
Proof.
  simpl. rewrite lookup_union.
  destruct (default ∅ (ro_headers overrides) !! k) as [v|];
    destruct (default ∅ (ko_headers (a_kyOptions a)) !! k); reflexivity.
Qed.

(** The record the parent holds is not written to: [extend] leaves
    [a_kyOptions] of the parent, a value, as it is, and when the parent was
    made without a [hooks] object of the caller, it leaves every object of
    the heap as it is. *)
Lemma extend_heap_without_user_hooks (a : ApiInstanceAdapter)
    (overrides : RequestOpts) (w : world) (l : loc) :
  ko_hooks (a_kyOptions a) = None ->
  is_Some (heap w !! l) ->
  heap (extend a overrides w).2 !! l = heap w !! l.
Proof.
  intros Hnone Hl. rewrite extend_unfold, createApiInstance_fresh by exact Hnone.
  simpl. assert (l ≠ fresh (dom (heap w))) as Hne.
  { intros ->. apply elem_of_dom in Hl. exact (is_fresh _ Hl). }
  rewrite !lookup_insert_ne by congruence. reflexivity.
Qed.

(** C1 fails on the code when the adapter was made with a [hooks] object of
    the caller. The options of the derived adapter are a shallow copy of the
    parent's, so both hold the same [hooks] object, and [createApiInstance]
    pushes on its [beforeError] array again: for every such parent, whatever
    the object [o] holds and whatever the overrides are, making the derived
    adapter changes the parent's [hooks] object, from [pushed o] to
    [pushed (pushed o)]. *)
Theorem extend_pushes_on_the_parents_hooks (args : ApiArgs) (l : loc)
    (o : hooks_obj) (w : world) (overrides : RequestOpts) :
  ko_hooks (default empty_KyOptions (kyOptions args)) = Some l ->
  heap w !! l = Some o ->
  ∃ parent w1 child w2,
    createApiInstance args w = (Normal parent, w1)
    ∧ extend parent overrides w1 = (Normal child, w2)
    ∧ a_hooks parent = l
    ∧ a_hooks child = l
    ∧ heap w1 !! l = Some (pushed o)
    ∧ heap w2 !! l = Some (pushed (pushed o))
    ∧ pushed (pushed o) ≠ pushed o.
Proof.
  intros Hl Ho.
  eexists _, _, _, _.
  split; [apply (createApiInstance_given args w l Hl)|].
  split; [rewrite extend_unfold;
          apply (createApiInstance_given _ _ l); exact Hl|].
  cbn [a_hooks adapter_of heap].
  rewrite !lookup_insert_eq, Ho. cbn [default].
  repeat split. unfold pushed. cbn [beforeError default].
  intros Heq. injection Heq as Heq. apply (f_equal length) in Heq.
  rewrite !length_app in Heq. simpl in Heq. lia.
Qed.

Lemma extend_pushes_on_the_parents_hooks_witness :
  let args := mkApiArgs "sk-test" None None (Some options_with_hooks) in
  ∃ parent w1 child w2,
    createApiInstance args (world_with_hooks None) = (Normal parent, w1)
    ∧ extend parent (mkRequestOpts None None) w1 = (Normal child, w2)
    ∧ a_hooks parent = 1%positive
    ∧ a_hooks child = 1%positive
    ∧ heap w1 !! 1%positive = Some (mkHooks [] [] (Some [Normalizer]))
    ∧ heap w2 !! 1%positive
      = Some (mkHooks [] [] (Some [Normalizer; Normalizer]))
    ∧ mkHooks [] [] (Some [Normalizer; Normalizer])
      ≠ mkHooks [] [] (Some [Normalizer]).
Proof.
  intros args.
  apply (extend_pushes_on_the_parents_hooks args 1%positive empty_hooks
           (world_with_hooks None) (mkRequestOpts None None));
    reflexivity.
Defined.

(** ** How often the normaliser runs *)

Section NormalizerRuns.
Context (H : host).

(** An instance whose array holds the one closure runs it once. *)
Lemma run_beforeError_once (error : js_error) (w : world) :
  normalized (run_beforeError H [Normalizer] error w).2
  = normalized w ++ [error].
Proof.
  simpl. rewrite !M_bind_unfold. unfold record_normalized, native. simpl.
  destruct (normalize H error); reflexivity.
Qed.

(** The sibling path: a client made without a [hooks] object. Each adapter,
    the first and every derived one, gets a fresh object with one
    normaliser, and a failed response is normalised exactly once. *)
Lemma fresh_adapter_normalizes_once (args : ApiArgs) (path : string)
    (po : PostOpts) (w : world) :
  ko_hooks (default empty_KyOptions (kyOptions args)) = None ->
  starts_with_slash (strip_slash path) = false ->
  let a := adapter_of args (fresh (dom (heap w))) [Normalizer] in
  let req := ky_request (a_kyBase a) (strip_slash path) po in
  ok (fetch H req) = false ->
  normalized ((a ← createApiInstance args; post H a path po) w).2
  = normalized w ++ [HTTPError (fetch H req)].
Proof.
  intros Hnone Hpath a req Hfail.
  rewrite M_bind_unfold, (createApiInstance_fresh _ _ Hnone).
  unfold post. rewrite (ky_post_accepted H _ _ _ Hpath).
  fold a. rewrite M_bind_unfold.
  unfold record_request at 1. cbn [fst snd].
  change (ky_request (a_kyBase a) (strip_slash path)
            (mkPostOpts (po_json po) (po_body po) (po_headers po)
               (po_signal po)))
    with req.
  rewrite Hfail. rewrite M_bind_unfold. cbn [heap sent normalized].
  set (w1 := mkWorld
               (<[fresh (dom (heap w)):=pushed empty_hooks]>
                  (<[fresh (dom (heap w)):=empty_hooks]> (heap w)))
               (sent w ++ [req]) (normalized w)).
  assert (Hhooks : current_beforeError H (a_kyBase a) w1
                   = (Normal [Normalizer], w1)).
  { unfold current_beforeError. destruct (ky_copies_hooks H); [reflexivity|].
    rewrite M_bind_unfold. unfold load, w1.
    cbn [fst snd heap a_kyBase ky_hooks a adapter_of].
    rewrite lookup_insert_eq. reflexivity. }
  rewrite Hhooks, M_bind_unfold.
  pose proof (run_beforeError_once (HTTPError (fetch H req)) w1) as Hrun.
  destruct (run_beforeError H [Normalizer] (HTTPError (fetch H req)) w1)
    as [[e|e] w']; exact Hrun.
Qed.

End NormalizerRuns.

Section NormalizerRunsTwice.
Context (H : host).

(** The normaliser on an [HTTPError] always gives a structured error. *)
Lemma normalize_HTTPError_structured (r : Response) :
  bodyUsed r = false ->
  ∃ e, normalize H (HTTPError r) = Normal (APIError_ e).
Proof.
  intros Hused. rewrite normalize_HTTPError, Hused. cbv zeta.
  destruct (body r); eexists; reflexivity.
Qed.

(** Two normalisers in a row: the second finds no [response] on the
    structured error of the first and wraps it in the generic error. *)
Lemma run_beforeError_twice (r : Response) (w : world) :
  bodyUsed r = false ->
  ∃ e,
    normalize H (HTTPError r) = Normal (APIError_ e)
    ∧ run_beforeError H [Normalizer; Normalizer] (HTTPError r) w
      = (Normal (GenericError (APIError_ e)),
         mkWorld (heap w) (sent w)
           (normalized w ++ [HTTPError r; APIError_ e])).
Proof.
  intros Hused. destruct (normalize_HTTPError_structured r Hused) as [e He].
  exists e. split; [exact He|].
  cbn [run_beforeError]. rewrite !M_bind_unfold.
  unfold record_normalized at 1. cbn [fst snd]. rewrite M_bind_unfold.
  unfold native at 1. rewrite He. rewrite !M_bind_unfold.
  unfold record_normalized, native. cbn.
  rewrite <- app_assoc. reflexivity.
Qed.

(** C2 fails on the code when the adapter of the client was made with a
    [hooks] object of the caller (an empty one is enough) and the call has
    per-call options: the derived adapter's [beforeError] array holds the
    normaliser twice, once from the parent and once from itself. For every
    host whose server answers with a failure, either way ky keeps its hook
    arrays, all params and all per-call options, the call sends one request
    and runs the normaliser twice on its (unread) response; the second run
    turns the structured error into the generic one, which is what the
    caller gets. *)
Theorem derived_adapter_normalizes_twice (args : ApiArgs) (l : loc)
    (o : hooks_obj) (w : world) (params : list (string * json))
    (opts : RequestOpts) :
  ko_hooks (default empty_KyOptions (kyOptions args)) = Some l ->
  heap w !! l = Some o ->
  beforeError o = None ->
  (∀ req, ok (fetch H req) = false ∧ bodyUsed (fetch H req) = false) ->
  ∃ parent w1 req e w2,
    createApiInstance args w = (Normal parent, w1)
    ∧ createChatCompletion H (mkClient parent) params (Some opts) w1
      = (Throw (GenericError (APIError_ e)), w2)
    ∧ sent w2 = sent w ++ [req]
    ∧ normalized w2 = normalized w ++ [HTTPError (fetch H req); APIError_ e].
Proof.
  intros Hl Ho Hnone Hfail.
  set (parent := adapter_of args l [Normalizer]).
  set (child := adapter_of (extend_args parent opts) l [Normalizer; Normalizer]).
  set (req := ky_request (a_kyBase child) "chat/completions"
                (json_opts (JObject params))).
  destruct (run_beforeError_twice (fetch H req)
              (mkWorld (<[l := pushed (pushed o)]> (<[l := pushed o]> (heap w)))
                 (sent w ++ [req]) (normalized w))
              (proj2 (Hfail req)))
    as (e & _ & Hrun).
  cbn [heap sent normalized] in Hrun.
  exists parent, (mkWorld (<[l := pushed o]> (heap w)) (sent w) (normalized w)),
         req, e.
  eexists. split.
  { rewrite (createApiInstance_given args w l Hl), Ho.
    cbn [default from_option id]. rewrite Hnone. reflexivity. }
  unfold createChatCompletion. rewrite M_bind_unfold.
  cbn [getApi api]. rewrite extend_unfold.
  rewrite (createApiInstance_given (extend_args parent opts) _ l Hl).
  cbn [heap sent normalized]. rewrite lookup_insert_eq.
  cbn [default from_option id].
  replace (default [] (beforeError (pushed o)) ++ [Normalizer])
    with [Normalizer; Normalizer]
    by (unfold pushed; cbn [beforeError default from_option id];
        rewrite Hnone; reflexivity).
  fold child. rewrite M_bind_unfold.
  unfold post. rewrite (ky_post_accepted H) by reflexivity.
  rewrite M_bind_unfold.
  change (ky_request (a_kyBase child) (strip_slash "chat/completions")
            (mkPostOpts (po_json (json_opts (JObject params)))
               (po_body (json_opts (JObject params)))
               (po_headers (json_opts (JObject params)))
               (po_signal (json_opts (JObject params)))))
    with req.
  unfold record_request at 1. cbn [fst snd heap sent normalized].
  rewrite (proj1 (Hfail req)). rewrite M_bind_unfold.
  assert (Hhooks :
    current_beforeError H (a_kyBase child)
      (mkWorld (<[l := pushed (pushed o)]> (<[l := pushed o]> (heap w)))
         (sent w ++ [req]) (normalized w))
    = (Normal [Normalizer; Normalizer],
       mkWorld (<[l := pushed (pushed o)]> (<[l := pushed o]> (heap w)))
         (sent w ++ [req]) (normalized w))).
  { unfold current_beforeError. destruct (ky_copies_hooks H); [reflexivity|].
    rewrite M_bind_unfold. unfold load.
    cbn [fst snd heap a_kyBase ky_hooks child adapter_of].
    rewrite lookup_insert_eq. unfold pushed.
    cbn [default from_option id beforeError]. rewrite Hnone. reflexivity. }
  rewrite Hhooks, M_bind_unfold, Hrun. cbn [throw].
  split; [reflexivity|]. split; reflexivity.
Qed.

End NormalizerRunsTwice.

Lemma derived_adapter_normalizes_twice_witness :
  let H := reference_host (server_fails 500) in
  let args := mkApiArgs "sk-test" None None (Some options_with_hooks) in
  ∃ parent w1 req e w2,
    createApiInstance args (world_with_hooks None) = (Normal parent, w1)
    ∧ createChatCompletion H (mkClient parent) []
        (Some (mkRequestOpts None None)) w1
      = (Throw (GenericError (APIError_ e)), w2)
    ∧ sent w2 = sent (world_with_hooks None) ++ [req]
    ∧ normalized w2
      = normalized (world_with_hooks None)
        ++ [HTTPError (fetch H req); APIError_ e].
Proof.
  intros H args.
  apply (derived_adapter_normalizes_twice H args 1%positive empty_hooks
           (world_with_hooks None) [] (mkRequestOpts None None));
    try reflexivity.
  intros req. split; reflexivity.
Defined.

(** When ky reads the hook arrays again on every request, the push is seen
    through the parent as well: after one [extend], a failed call made with
    no per-call options is normalised twice. *)
Lemma parent_normalizes_twice_when_hooks_are_read_again
    (parse : string -> completion Error json)
    (params : list (string * json)) (opts : RequestOpts) :
  let H := mkHost parse (server_fails 500) false in
  let cfg := mkConfigOpts (Some "sk-test") None None (Some options_with_hooks) in
  ∃ this w1 child w2,
    new_OpenAIClient ∅ cfg (world_with_hooks None) = (Normal this, w1)
    ∧ extend (api this) opts w1 = (Normal child, w2)
    ∧ length (normalized (createChatCompletion H this params None w1).2) = 1%nat
    ∧ length (normalized (createChatCompletion H this params None w2).2) = 2%nat.
Proof.
  intros H cfg.
  exists (mkClient
            (adapter_of (mkApiArgs "sk-test" None None (Some options_with_hooks))
               1%positive [Normalizer])),
         (mkWorld {[1%positive := pushed empty_hooks]} [] []).
  eexists _, _. split; [vm_compute; reflexivity|].
  split; [rewrite extend_unfold;
          erewrite createApiInstance_given by reflexivity; reflexivity|].
  split; vm_compute; reflexivity.
Qed.

(** ** The retry delay *)



(** The first ten attempts at the draw [0]: the delay is below the window
    on the third, the seventh and the eighth. *)
Example delay_first_attempts :
  (λ n, within_300_of_quadratic n (delay 0 (float_of_Z n)))
    <$> [1; 2; 3; 4; 5; 6; 7; 8; 9; 10]
  = [true; true; false; true; true; true; false; false; true; true].
Proof. vm_compute. reflexivity. Qed.

(** ** The model on concrete inputs *)

(** Per-call headers on a transcription reach the call they are given to
    and no other: with [{ headers: { A: 'x' } }] the request carries [A: x]
    next to the headers of the client, and a call without options carries no
    [A]. On a chat completion, where [post] gets no headers object, the
    request carries neither. *)
Example per_call_headers_example :
  let H := reference_host (server_ok "{}") in
  let opts := mkRequestOpts (Some {["A" := "x"]}) None in
  let params := params_with_file (VString "recording.wav") in
  let w := (createTranscription H example_client params (Some opts)
              example_world).2 in
  let w' := (createTranscription H example_client params None w).2 in
  let w'' := (createChatCompletion H example_client [] (Some opts) w').2 in
  (λ r, (req_headers r !! "A", req_headers r !! "Authorization"))
    <$> sent w''
  = [(Some "x", Some "Bearer sk-test"); (None, Some "Bearer sk-test");
     (None, None)].
Proof. vm_compute. reflexivity. Qed.

(** [parseHeaders] on an array of pairs with a repeated name, on an entry
    that cannot be spread, and on an iterator that throws. *)
Example parseHeaders_examples :
  parseHeaders (HIterable [ItemArray ["a"; "1"]; ItemArray ["b"; "2"];
                           ItemArray ["a"; "3"]] true)
  = Normal {["a" := Some "3"; "b" := Some "2"]}
  ∧ parseHeaders (HIterable [ItemArray ["a"; "1"]; ItemOther] true) = Normal ∅
  ∧ parseHeaders (HIterable [ItemArray ["a"; "1"]] false) = Normal ∅
  ∧ parseHeaders (HIterable [ItemArray ["a"]] true) = Normal {["a" := None]}.
Proof. repeat split; vm_compute; reflexivity. Qed.

(** The four branches of the [file] handling. *)
Example file_entry_examples :
  file_entry (VObject [("data", VView "RIFF"); ("name", VString "a.wav")])
  = FormNewBlob (VView "RIFF") (VString "application/octet-stream")
      (VString "a.wav")
  ∧ file_entry (VBlob (Some "b.mp3") "audio/mpeg" "ID3")
    = FormBlob (VBlob (Some "b.mp3") "audio/mpeg" "ID3") (VString "b.mp3")
  ∧ file_entry (VBlob None "audio/mpeg" "ID3")
    = FormBlob (VBlob None "audio/mpeg" "ID3") (VString "audio")
  ∧ file_entry (VArrayBuffer "RIFF")
    = FormNewBlob (VArrayBuffer "RIFF") (VString "application/octet-stream")
        (VString "audio")
  ∧ file_entry VStream = FormToString VStream
  ∧ file_entry (VObject [("path", VString "a.wav")])
    = FormToString (VObject [("path", VString "a.wav")]).
Proof. repeat split. Qed.

(** A transcription in the [text] format returns the body as a string, one
    in the default format the parsed JSON. *)
Example createTranscription_formats :
  let H := reference_host (server_ok "{}") in
  let blob := VBlob (Some "b.mp3") "audio/mpeg" "ID3" in
  let text_params :=
    mkTranscriptionParams blob "whisper-1" None None (Some "text") None None
      None None None in
  (createTranscription H example_client text_params None example_world).1
  = Normal (TranscriptionText "{}")
  ∧ (createTranscription H example_client (params_with_file blob) None
       example_world).1
    = Normal (TranscriptionJson (JObject [])).
Proof. split; vm_compute; reflexivity. Qed.

(** A failed call through a client made without a [hooks] object ends in
    the structured error, normalised once. *)
Example failed_call_example :
  let H := reference_host (λ _, failed_response 401 error_body) in
  createChatCompletion H example_client [] None example_world
  = (Throw (APIError_
              (mkAPIError 401 (Some (JObject [("message", JString "bad")]))
                 None {["content-type" := Some "application/json"]})),
     mkWorld (heap example_world)
       [ky_request (a_kyBase (api example_client)) "chat/completions"
          (json_opts (JObject []))]
       [HTTPError (failed_response 401 error_body)]).
Proof. vm_compute. reflexivity. Qed.

(** The signal of the per-call options is not on the request. *)
Example per_call_signal_example :
  let H := reference_host (server_ok "{}") in
  let opts := mkRequestOpts None (Some (Signal 7)) in
  req_signal
    <$> sent (createChatCompletion H example_client [] (Some opts)
                example_world).2
  = [None].
Proof. vm_compute. reflexivity. Qed.

(* ===================================================================== *)
(** * More of the code                                                     *)
(* ===================================================================== *)

(** ** [parseHeaders] *)

(** X1. What [parseHeaders] makes of a [Headers] object that holds the entries
    of a record is that record again: no entry is lost, none is added. *)
Theorem parseHeaders_of_record (m : gmap string string) :
  parseHeaders (Headers (map_to_list m)) = Normal (Some <$> m).
Proof.
  rewrite parseHeaders_Headers. f_equal.
  change (map (λ kv : string * string, (kv.1, Some kv.2)) (map_to_list m))
    with (prod_map id Some <$> map_to_list m).
  rewrite <- (list_to_map_proper (prod_map id Some <$> map_to_list m)
                (reverse (prod_map id Some <$> map_to_list m))).
  - rewrite list_to_map_fmap, list_to_map_to_list. reflexivity.
  - rewrite <- list_fmap_compose.
    replace (fst ∘ prod_map id Some) with (@fst string string)
      by reflexivity.
    apply NoDup_fst_map_to_list.
  - symmetry. apply reverse_Permutation.
Qed.

(** X2. Of two entries with one name the later one counts: an entry put after
    the others overwrites what they gave for its name and leaves the other
    names alone. *)
Theorem parseHeaders_later_entry_wins (l : list (string * string))
    (k v : string) :
  parseHeaders (Headers (l ++ [(k, v)]))
  = (m ← parseHeaders (Headers l); mret (<[k := Some v]> m)).
Proof.
  rewrite !parseHeaders_Headers. cbn [mbind completion_bind mret
    completion_ret]. f_equal.
  rewrite map_app, reverse_app. reflexivity.
Qed.

(** X3. One entry that cannot be spread, or an iterator that fails, costs all
    the headers, also those read before the failure: the result is the
    empty record, never a partial one. *)
Theorem parseHeaders_all_or_nothing (items : list header_item)
    (completes : bool) :
  ItemOther ∈ items ∨ completes = false ->
  parseHeaders (HIterable items completes) = Normal ∅.
Proof.
  intros Hfail. rewrite parseHeaders_returns. f_equal.
  unfold parseHeaders_try. destruct completes; [|reflexivity].
  destruct Hfail as [Hin|]; [|discriminate].
  assert (Hthrow : ∃ e, spread_items items = Throw e).
  { induction items as [|[xs|] items IH]; [inversion Hin| |eexists; reflexivity].
    apply elem_of_cons in Hin as [Heq|Hin]; [discriminate|].
    destruct (IH Hin) as [e He]. exists e. simpl. rewrite He. reflexivity. }
  destruct Hthrow as [e ->]. reflexivity.
Qed.

Lemma parseHeaders_all_or_nothing_witness :
  parseHeaders (HIterable [ItemArray ["a"; "1"]; ItemOther] true) = Normal ∅
  ∧ parseHeaders (HIterable [ItemArray ["a"; "1"]] false) = Normal ∅.
Proof.
  split.
  - apply (parseHeaders_all_or_nothing [ItemArray ["a"; "1"]; ItemOther] true).
    left. apply list_elem_of_In. right. left. reflexivity.
  - apply (parseHeaders_all_or_nothing [ItemArray ["a"; "1"]] false).
    right. reflexivity.
Defined.

(** ** The normaliser on the [error] field *)

Section NormalizeMore.
Context (H : host).

(** X4. Whatever the [error] field of the parsed body holds, an object or not,
    it becomes the parsed error of the structured error; the raw text is
    kept as the message exactly when that value is falsy ([null], [false],
    [0], the empty string), in which case the error carries both. *)
Theorem normalize_error_field (r : Response) (b : body_stream)
    (errText : string) (o : list (string * json)) (field : json) :
  body r = Some b ->
  text r = Normal errText ->
  JSON_parse H errText = Normal (JObject o) ->
  obj_get "error" o = Some field ->
  ∃ hdrs,
    parseHeaders (headers r) = Normal hdrs
    ∧ normalize H (HTTPError r)
      = Normal (APIError_
                  (mkAPIError (status r) (Some field)
                     (if json_truthy field then None else Some errText)
                     hdrs)).
Proof.
  intros Hbody Htext Hparse Hfield.
  eexists. split; [apply parseHeaders_returns|].
  unfold text in Htext. rewrite Hbody in Htext.
  destruct (bodyUsed r) eqn:Hused; [discriminate|].
  rewrite normalize_HTTPError, Hbody, Hused. cbv zeta.
  replace (match read_error b with
           | Some e => message e
           | None => join (chunks b)
           end) with errText
    by (destruct (read_error b); [discriminate|];
        injection Htext as <-; reflexivity).
  rewrite Hparse. simpl get_error. rewrite Hfield. reflexivity.
Qed.

(** X5. A failed response without a body gives a structured error with the
    status and the headers and neither a parsed error nor a message; whether
    the response counts as read makes no difference then. *)
Theorem normalize_without_body (r : Response) :
  body r = None ->
  ∃ hdrs,
    parseHeaders (headers r) = Normal hdrs
    ∧ normalize H (HTTPError r)
      = Normal (APIError_ (mkAPIError (status r) None None hdrs)).
Proof.
  intros Hbody. eexists. split; [apply parseHeaders_returns|].
  rewrite normalize_HTTPError, Hbody. reflexivity.
Qed.

End NormalizeMore.

Lemma normalize_error_field_witness :
  let H := reference_host (server_ok "{}") in
  let text := "{" +:+ q +:+ "error" +:+ q +:+ ": null}" in
  ∃ hdrs,
    parseHeaders (headers (failed_response 400 text)) = Normal hdrs
    ∧ normalize H (HTTPError (failed_response 400 text))
      = Normal (APIError_ (mkAPIError 400 (Some JNull) (Some text) hdrs)).
Proof.
  intros H text.
  apply (normalize_error_field H (failed_response 400 text)
           (Body [text] None) text [("error", JNull)] JNull);
    vm_compute; reflexivity.
Defined.

Lemma normalize_without_body_witness :
  let H := reference_host (server_ok "{}") in
  ∃ hdrs,
    parseHeaders (headers (server_fails 503 (mkRequest "" "" ∅ None None None 0)))
    = Normal hdrs
    ∧ normalize H (HTTPError
                     (server_fails 503 (mkRequest "" "" ∅ None None None 0)))
      = Normal (APIError_ (mkAPIError 503 None None hdrs)).
Proof.
  intros H.
  apply (normalize_without_body H
           (server_fails 503 (mkRequest "" "" ∅ None None None 0))).
  reflexivity.
Defined.

(** ** [post]: what is returned, what is thrown *)

Section PostMore.
Context (H : host).

Lemma run_beforeError_heap (hooks : list hook) (error : js_error) (w : world) :
  heap (run_beforeError H hooks error w).2 = heap w.
Proof.
  revert error w. induction hooks as [|[f|] hooks IH]; intros error w; simpl.
  - reflexivity.
  - apply IH.
  - rewrite !M_bind_unfold. unfold record_normalized, native. simpl.
    destruct (normalize H error) as [e'|e']; simpl; [|reflexivity].
    rewrite M_bind_unfold. simpl. rewrite IH. reflexivity.
Qed.

(** The outcome of [ky_post]: a refused input, or one attempt and its
    outcome by the status of the answer. *)
Lemma ky_post_outcome (ky : KyInstance) (path : string) (o : PostOpts)
    (w : world) :
  let req := ky_request ky path o in
  let w1 := mkWorld (heap w) (sent w ++ [req]) (normalized w) in
  if starts_with_slash path && str_truthy (ky_prefixUrl ky)
  then ∃ e, ky_post H ky path o w = (Throw (Native e), w)
  else if ok (fetch H req)
       then ky_post H ky path o w = (Normal (fetch H req), w1)
       else ∃ e w', ky_post H ky path o w = (Throw e, w')
                    ∧ heap w' = heap w ∧ sent w' = sent w ++ [req].
Proof.
  intros req w1. unfold ky_post. cbv zeta. fold req.
  destruct (starts_with_slash path && str_truthy (ky_prefixUrl ky));
    [eexists; reflexivity|].
  destruct (ok (fetch H req)); [reflexivity|].
  change (∃ e w',
            (hooks ← current_beforeError H ky;
             error ← run_beforeError H hooks (HTTPError (fetch H req));
             throw error) w1 = (@Throw js_error Response e, w')
            ∧ heap w' = heap w ∧ sent w' = sent w ++ [req]).
  rewrite M_bind_unfold.
  destruct (current_beforeError_returns H ky w1) as [hooks ->].
  rewrite M_bind_unfold.
  pose proof (run_beforeError_heap hooks (HTTPError (fetch H req)) w1) as Hh.
  pose proof (run_beforeError_sent H hooks (HTTPError (fetch H req)) w1)
    as Hs.
  destruct (run_beforeError H hooks (HTTPError (fetch H req)) w1)
    as [[e|e] w']; eexists _, _;
    (split; [reflexivity|split; [exact Hh|exact Hs]]).
Qed.


(** X7. A path with a slash in front is the path without it: one leading slash
    is dropped before the request is made, and only one. *)
Theorem post_drops_one_leading_slash (a : ApiInstanceAdapter) (path : string)
    (o : PostOpts) (w : world) :
  post H a ("/" +:+ path) o w
  = ky_post H (a_kyBase a) path
      (mkPostOpts (po_json o) (po_body o) (po_headers o) (po_signal o)) w
  ∧ (strip_prefix "/" path = None ->
     post H a ("/" +:+ path) o w = post H a path o w).
Proof.
  split; [reflexivity|].
  intros Hno. unfold post. f_equal.
  destruct path as [|c path]; [reflexivity|].
  simpl in Hno. destruct (Ascii.eqb_spec "/" c) as [<-|Hne]; [discriminate|].
  unfold strip_slash at 2.
  destruct c as [[] [] [] [] [] [] [] []]; try reflexivity. congruence.
Qed.

(** X8. An adapter made without a [hooks] object of the caller turns a failed
    answer with an unread body into the structured error: for a path that
    ky accepts the call throws an [APIError] with the status of the answer,
    and nothing else. For a path that still begins with a slash after one
    has been taken off there is no answer: ky refuses it, the call throws a
    plain error and nothing is sent. *)
Theorem fresh_adapter_throws_structured (args : ApiArgs) (path : string)
    (po : PostOpts) (w : world) :
  ko_hooks (default empty_KyOptions (kyOptions args)) = None ->
  let a := adapter_of args (fresh (dom (heap w))) [Normalizer] in
  let res := fetch H (ky_request (a_kyBase a) (strip_slash path) po) in
  let call := a ← createApiInstance args; post H a path po in
  (starts_with_slash (strip_slash path) = false ->
   ok res = false ->
   bodyUsed res = false ->
   ∃ e,
     (call w).1 = Throw (APIError_ e)
     ∧ normalize H (HTTPError res) = Normal (APIError_ e)
     ∧ api_status e = status res)
  ∧ (starts_with_slash (strip_slash path) = true ->
     ∃ e, (call w).1 = Throw (Native e) ∧ sent (call w).2 = sent w).
Proof.
  intros Hnone a res call. split.
  - intros Hpath Hfail Hunread.
    assert (He : ∃ e, normalize H (HTTPError res) = Normal (APIError_ e)
                      ∧ api_status e = status res).
    { rewrite normalize_HTTPError, Hunread. cbv zeta.
      destruct (body res); eexists; (split; [reflexivity|reflexivity]). }
    destruct He as (e & He & Hstatus). exists e.
    split; [|split; assumption].
    unfold call. rewrite M_bind_unfold, (createApiInstance_fresh _ _ Hnone).
    unfold post. rewrite (ky_post_accepted H _ _ _ Hpath).
    fold a. rewrite M_bind_unfold.
    unfold record_request at 1. cbn [fst snd].
    change (fetch H (ky_request (a_kyBase a) (strip_slash path)
              (mkPostOpts (po_json po) (po_body po) (po_headers po)
                 (po_signal po))))
      with res.
    rewrite Hfail. rewrite M_bind_unfold. cbn [heap sent normalized].
    set (w1 := mkWorld _ _ _).
    assert (Hhooks : current_beforeError H (a_kyBase a) w1
                     = (Normal [Normalizer], w1)).
    { unfold current_beforeError. destruct (ky_copies_hooks H); [reflexivity|].
      rewrite M_bind_unfold. unfold load, w1.
      cbn [fst snd heap a_kyBase ky_hooks a adapter_of].
      rewrite lookup_insert_eq. reflexivity. }
    rewrite Hhooks, M_bind_unfold.
    cbn [run_beforeError]. rewrite !M_bind_unfold.
    unfold record_normalized at 1. cbn [fst snd]. rewrite M_bind_unfold.
    unfold native at 1. rewrite He. reflexivity.
  - intros Hpath.
    unfold call. rewrite M_bind_unfold, (createApiInstance_fresh _ _ Hnone).
    unfold post, ky_post. fold a. rewrite Hpath.
    replace (str_truthy (ky_prefixUrl (a_kyBase a))) with true
      by (symmetry; apply str_or_truthy, str_or_truthy; reflexivity).
    eexists. split; reflexivity.
Qed.

Lemma run_beforeError_user_hooks (fs : list (js_error -> js_error))
    (error : js_error) (w : world) :
  run_beforeError H ((UserHook <$> fs) ++ [Normalizer]) error w
  = run_beforeError H [Normalizer] (fold_left (λ e f, f e) fs error) w.
Proof.
  revert error. induction fs as [|f fs IH]; intros error; [reflexivity|].
  simpl. apply IH.
Qed.

(** X9. The normaliser is pushed behind the hooks that the [hooks] object of the
    caller already holds: on an error the hooks of the caller run first, in
    their order, and the normaliser works on what the last of them
    returns. *)
Theorem user_hooks_run_before_normalizer (args : ApiArgs) (l : loc)
    (fs : list (js_error -> js_error)) (w : world) :
  ko_hooks (default empty_KyOptions (kyOptions args)) = Some l ->
  beforeError (default empty_hooks (heap w !! l)) = Some (UserHook <$> fs) ->
  ∃ a w',
    createApiInstance args w = (Normal a, w')
    ∧ beforeError (default empty_hooks (heap w' !! l))
      = Some ((UserHook <$> fs) ++ [Normalizer])
    ∧ ∀ error w0,
        run_beforeError H (ky_beforeError (a_kyBase a)) error w0
        = run_beforeError H [Normalizer] (fold_left (λ e f, f e) fs error) w0.
Proof.
  intros Hl Hfs. rewrite (createApiInstance_given _ _ _ Hl). cbv zeta.
  eexists _, _. split; [reflexivity|]. split.
  - cbn [heap]. rewrite lookup_insert_eq. unfold pushed.
    cbn [default from_option id beforeError]. rewrite Hfs. reflexivity.
  - intros error w0. cbn [a_kyBase adapter_of ky_beforeError].
    rewrite Hfs. apply run_beforeError_user_hooks.
Qed.

End PostMore.

Lemma fresh_adapter_throws_structured_witness :
  let H := reference_host (λ _, failed_response 429 "slow down") in
  (∃ e,
      ((a ← createApiInstance (mkApiArgs "sk-test" None None None);
        post H a "chat/completions" (mkPostOpts None None None None))
         empty_world).1 = Throw (APIError_ e)
      ∧ normalize H (HTTPError (failed_response 429 "slow down"))
        = Normal (APIError_ e)
      ∧ api_status e = 429)
  ∧ ∃ e,
      ((a ← createApiInstance (mkApiArgs "sk-test" None None None);
        post H a "//chat/completions" (mkPostOpts None None None None))
         empty_world).1 = Throw (Native e)
      ∧ sent ((a ← createApiInstance (mkApiArgs "sk-test" None None None);
               post H a "//chat/completions"
                 (mkPostOpts None None None None)) empty_world).2 = [].
Proof.
  intros H.
  destruct (fresh_adapter_throws_structured H
              (mkApiArgs "sk-test" None None None) "chat/completions"
              (mkPostOpts None None None None) empty_world eq_refl)
    as [Haccepted _].
  destruct (fresh_adapter_throws_structured H
              (mkApiArgs "sk-test" None None None) "//chat/completions"
              (mkPostOpts None None None None) empty_world eq_refl)
    as [_ Hrefused].
  split; [apply Haccepted; reflexivity|apply Hrefused; reflexivity].
Defined.

Lemma user_hooks_run_before_normalizer_witness :
  let H := reference_host (server_ok "{}") in
  ∃ a w',
    createApiInstance (mkApiArgs "sk-test" None None (Some options_with_hooks))
      (world_with_hooks (Some [UserHook reads_body])) = (Normal a, w')
    ∧ ∀ error w0,
        run_beforeError H (ky_beforeError (a_kyBase a)) error w0
        = run_beforeError H [Normalizer] (reads_body error) w0.
Proof.
  intros H.
  destruct (user_hooks_run_before_normalizer H
              (mkApiArgs "sk-test" None None (Some options_with_hooks))
              1%positive [reads_body]
              (world_with_hooks (Some [UserHook reads_body]))
              eq_refl eq_refl) as (a & w' & Hrun & _ & Horder).
  exists a, w'. split; [exact Hrun|exact Horder].
Defined.


Lemma post_drops_one_leading_slash_witness :
  let H := reference_host (server_ok "{}") in
  post H (api example_client) "/embeddings" (mkPostOpts None None None None)
    example_world
  = post H (api example_client) "embeddings" (mkPostOpts None None None None)
      example_world.
Proof.
  intros H.
  apply (post_drops_one_leading_slash H (api example_client) "embeddings"
           (mkPostOpts None None None None) example_world).
  reflexivity.
Defined.

(** ** [createApiInstance] and [extend]: what the requests carry *)

Lemma str_truthy_ne (s : string) : s ≠ "" -> str_truthy s = true.
Proof.
  intros Hne. unfold str_truthy.
  destruct (String.eqb_spec s ""); [contradiction|reflexivity].
Qed.

Lemma str_or_Some_truthy (x y : string) :
  str_truthy x = true -> str_or (Some x) y = x.
Proof. intros Hx. unfold str_or. rewrite Hx. reflexivity. Qed.

(** X10. The headers of a request. When the call gives no headers object,
    [post] hands ky an explicit [headers: undefined], which replaces the
    headers of the instance: the request carries none of them, neither
    [Authorization] nor [User-Agent]. When the call gives a headers object,
    the headers are merged by precedence: a header of the call wins over
    one of the client's [kyOptions.headers], which wins over the defaults;
    and when neither names [Authorization], the request carries
    [Bearer <apiKey>] for a non-empty key and no such header for an empty
    one. *)
Theorem request_headers_precedence (args : ApiArgs) (w : world)
    (path : string) (po : PostOpts) (k : string) :
  let own := default ∅ (ko_headers (default empty_KyOptions (kyOptions args))) in
  ∃ a w',
    createApiInstance args w = (Normal a, w')
    ∧ let req := ky_request (a_kyBase a) path po in
      (po_headers po = None -> req_headers req = ∅)
      ∧ ∀ call, po_headers po = Some call ->
          (∀ v, call !! k = Some v -> req_headers req !! k = Some v)
          ∧ (∀ v, call !! k = None -> own !! k = Some v ->
                  req_headers req !! k = Some v)
          ∧ (call !! "Authorization" = None ->
             own !! "Authorization" = None ->
             req_headers req !! "Authorization"
             = if str_truthy (apiKey args)
               then Some ("Bearer " +:+ apiKey args) else None).
Proof.
  intros own.
  destruct (createApiInstance_returns args w) as (l & arr & h & ->).
  eexists _, _. split; [reflexivity|].
  cbn [ky_request req_headers a_kyBase adapter_of ky_headers].
  split; [intros ->; reflexivity|]. intros call ->.
  unfold instance_headers. fold own.
  split; [|split].
  - intros v Hv. apply lookup_union_Some_l, Hv.
  - intros v Hcall Hv. rewrite lookup_union_r by exact Hcall.
    do 3 apply lookup_union_Some_l. exact Hv.
  - intros Hcall Hown. rewrite lookup_union_r by exact Hcall.
    assert (Hbase :
      (own ∪ (if str_truthy (default "" (organizationId args))
              then {["OpenAI-Organization" := default "" (organizationId args)]}
              else ∅)) !! "Authorization" = None).
    { rewrite lookup_union_r by exact Hown.
      destruct (str_truthy (default "" (organizationId args)));
        [apply lookup_singleton_ne; discriminate|apply lookup_empty]. }
    destruct (str_truthy (apiKey args)).
    + apply lookup_union_Some_l. rewrite lookup_union_r by exact Hbase.
      apply lookup_singleton_eq.
    + rewrite lookup_union_r.
      * apply lookup_singleton_ne. discriminate.
      * rewrite lookup_union_r by exact Hbase. apply lookup_empty.
Qed.

(** X11. The base URL of an adapter is never empty: it is [baseUrl] when that is
    a non-empty string, else [kyOptions.prefixUrl] when that is one, else
    the default; an empty string counts as absent. *)
Theorem base_url_precedence (args : ApiArgs) (w : world) :
  let prefixUrl := ko_prefixUrl (default empty_KyOptions (kyOptions args)) in
  ∃ a w',
    createApiInstance args w = (Normal a, w')
    ∧ ky_prefixUrl (a_kyBase a) ≠ ""
    ∧ (∀ b, baseUrl args = Some b -> b ≠ "" -> ky_prefixUrl (a_kyBase a) = b)
    ∧ (default "" (baseUrl args) = "" ->
       ∀ p, prefixUrl = Some p -> p ≠ "" -> ky_prefixUrl (a_kyBase a) = p)
    ∧ (default "" (baseUrl args) = "" -> default "" prefixUrl = "" ->
       ky_prefixUrl (a_kyBase a) = DEFAULT_BASE_URL).
Proof.
  intros prefixUrl.
  destruct (createApiInstance_returns args w) as (l & arr & h & ->).
  eexists _, _. split; [reflexivity|].
  cbn [a_kyBase adapter_of ky_prefixUrl]. fold prefixUrl.
  split; [|split; [|split]].
  - intros Hempty.
    pose proof (str_or_truthy (baseUrl args) (str_or prefixUrl DEFAULT_BASE_URL)
                  (str_or_truthy prefixUrl DEFAULT_BASE_URL eq_refl)) as Ht.
    rewrite Hempty in Ht. discriminate.
  - intros b -> Hb. unfold str_or at 1. rewrite (str_truthy_ne b Hb).
    reflexivity.
  - intros Hbase p -> Hp.
    unfold str_or. rewrite (str_truthy_ne p Hp).
    destruct (baseUrl args) as [b|]; [|reflexivity].
    simpl in Hbase. subst b. reflexivity.
  - intros Hbase Hprefix. unfold str_or.
    destruct (baseUrl args) as [b|]; simpl in Hbase; [subst b; simpl|];
      (destruct prefixUrl as [p|]; simpl in Hprefix; [subst p|]; reflexivity).
Qed.

Lemma base_url_precedence_witness :
  ∃ a w',
    createApiInstance
      (mkApiArgs "sk-test" (Some "")
         None (Some (mkKyOptions None None (Some "https://proxy.test/v1")
                       None None None)))
      empty_world = (Normal a, w')
    ∧ ky_prefixUrl (a_kyBase a) = "https://proxy.test/v1".
Proof.
  destruct (base_url_precedence
              (mkApiArgs "sk-test" (Some "")
                 None (Some (mkKyOptions None None (Some "https://proxy.test/v1")
                               None None None)))
              empty_world) as (a & w' & Hrun & _ & _ & Hprefix & _).
  exists a, w'. split; [exact Hrun|].
  apply Hprefix; [reflexivity|reflexivity|discriminate].
Defined.

Lemma request_headers_precedence_witness :
  ∃ a w',
    createApiInstance
      (mkApiArgs "sk-test" None None
         (Some (mkKyOptions (Some {["X-Team" := "a"]}) None None None None None)))
      empty_world = (Normal a, w')
    ∧ let req := ky_request (a_kyBase a) "audio/transcriptions"
                   (mkPostOpts None None (Some {["X-Team" := "b"]}) None) in
      req_headers req !! "X-Team" = Some "b"
      ∧ req_headers req !! "Authorization" = Some "Bearer sk-test".
Proof.
  destruct (request_headers_precedence
              (mkApiArgs "sk-test" None None
                 (Some (mkKyOptions (Some {["X-Team" := "a"]}) None None None
                          None None)))
              empty_world "audio/transcriptions"
              (mkPostOpts None None (Some {["X-Team" := "b"]}) None) "X-Team")
    as (a & w' & Hrun & _ & Hcall).
  destruct (Hcall {["X-Team" := "b"]} eq_refl) as (Hwins & _ & Hauth).
  exists a, w'. split; [exact Hrun|]. split.
  - apply Hwins. reflexivity.
  - apply Hauth; reflexivity.
Defined.

(** X12. [extend] with no headers to add gives an adapter that sends what its
    parent sends: for every path and all options of a call the request of
    the child is the request of the parent. *)
Theorem extend_without_headers_is_the_parent (args : ApiArgs)
    (signal : option AbortSignal) (w : world) :
  ∃ parent w1 child w2,
    createApiInstance args w = (Normal parent, w1)
    ∧ extend parent (mkRequestOpts None signal) w1 = (Normal child, w2)
    ∧ ∀ path po,
        ky_request (a_kyBase child) path po
        = ky_request (a_kyBase parent) path po.
Proof.
  destruct (createApiInstance_returns args w) as (l & arr & h & Hparent).
  set (parent := adapter_of args l arr) in *.
  destruct (createApiInstance_returns
              (extend_args parent (mkRequestOpts None signal))
              (mkWorld h (sent w) (normalized w)))
    as (l' & arr' & h' & Hchild).
  eexists _, _, _, _. split; [exact Hparent|].
  split; [rewrite extend_unfold; exact Hchild|].
  intros path po. unfold ky_request. f_equal.
  - apply extend_prefixUrl.
  - f_equal. cbn. rewrite (left_id_L ∅ (∪)).
    unfold instance_headers. reflexivity.
Qed.

(** X13. Two [extend]s in a row are one [extend] with the two header records
    merged, the later one winning: the requests of the adapters are the
    same. *)
Theorem extend_twice_merges (a : ApiInstanceAdapter) (o1 o2 : RequestOpts)
    (w : world) :
  let merged :=
    mkRequestOpts
      (Some (default ∅ (ro_headers o2) ∪ default ∅ (ro_headers o1))) None in
  ∃ a1 w1 a12 w12 a' w',
    extend a o1 w = (Normal a1, w1)
    ∧ extend a1 o2 w1 = (Normal a12, w12)
    ∧ extend a merged w = (Normal a', w')
    ∧ ∀ path po,
        ky_request (a_kyBase a12) path po = ky_request (a_kyBase a') path po.
Proof.
  intros merged.
  destruct (createApiInstance_returns (extend_args a o1) w)
    as (l1 & arr1 & h1 & H1).
  set (a1 := adapter_of (extend_args a o1) l1 arr1) in *.
  destruct (createApiInstance_returns (extend_args a1 o2)
              (mkWorld h1 (sent w) (normalized w)))
    as (l2 & arr2 & h2 & H2).
  destruct (createApiInstance_returns (extend_args a merged) w)
    as (l' & arr' & h' & H').
  eexists _, _, _, _, _, _.
  split; [rewrite extend_unfold; exact H1|].
  split; [rewrite extend_unfold; exact H2|].
  split; [rewrite extend_unfold; exact H'|].
  intros path po. unfold ky_request. f_equal.
  - unfold a1. cbn -[str_or].
    set (X := str_or (a_baseUrl a) _).
    assert (HX : str_truthy X = true)
      by (apply str_or_truthy, str_or_truthy; reflexivity).
    rewrite !(str_or_Some_truthy X) by exact HX. reflexivity.
  - f_equal. unfold a1. cbn -[instance_headers union].
    rewrite (assoc_L (∪)). reflexivity.
Qed.

(** X14. Making an adapter when the caller gave no [hooks] object sends nothing,
    runs no hook, and writes only to one new object: every object that was
    in the heap is as it was. *)
Theorem createApiInstance_frame (args : ApiArgs) (w : world) :
  ko_hooks (default empty_KyOptions (kyOptions args)) = None ->
  ∃ a w',
    createApiInstance args w = (Normal a, w')
    ∧ sent w' = sent w
    ∧ normalized w' = normalized w
    ∧ (a_hooks a ∉ dom (heap w))
    ∧ dom (heap w') = {[a_hooks a]} ∪ dom (heap w)
    ∧ ∀ l, l ∈ dom (heap w) -> heap w' !! l = heap w !! l.
Proof.
  intros Hnone. rewrite (createApiInstance_fresh _ _ Hnone).
  eexists _, _. split; [reflexivity|].
  cbn [sent normalized heap a_hooks adapter_of].
  split; [reflexivity|]. split; [reflexivity|].
  split; [apply is_fresh|]. split.
  - rewrite !dom_insert_L, (assoc_L (∪)), (idemp_L (∪)). reflexivity.
  - intros l Hl. assert (l ≠ fresh (dom (heap w))) as Hne
      by (intros ->; exact (is_fresh _ Hl)).
    rewrite !lookup_insert_ne by congruence. reflexivity.
Qed.

Lemma createApiInstance_frame_witness :
  ∃ a w',
    createApiInstance (mkApiArgs "sk-test" None None None) example_world
    = (Normal a, w')
    ∧ (a_hooks a ∉ dom (heap example_world))
    ∧ heap w' !! 1%positive = heap example_world !! 1%positive.
Proof.
  destruct (createApiInstance_frame (mkApiArgs "sk-test" None None None)
              example_world eq_refl)
    as (a & w' & Hrun & _ & _ & Hfresh & _ & Hframe).
  exists a, w'. split; [exact Hrun|]. split; [exact Hfresh|].
  apply Hframe. apply elem_of_dom. eexists. reflexivity.
Defined.

(** ** The client: what the calls send, return and throw *)

Section ClientMore.
Context (H : host).

Lemma post_outcome (a : ApiInstanceAdapter) (path : string) (o : PostOpts)
    (w : world) :
  starts_with_slash (strip_slash path) = false ->
  let req := ky_request (a_kyBase a) (strip_slash path) o in
  if ok (fetch H req)
  then post H a path o w
       = (Normal (fetch H req),
          mkWorld (heap w) (sent w ++ [req]) (normalized w))
  else ∃ e w', post H a path o w = (Throw e, w') ∧ heap w' = heap w.
Proof.
  intros Hpath req.
  pose proof (ky_post_outcome H (a_kyBase a) (strip_slash path)
                (mkPostOpts (po_json o) (po_body o) (po_headers o)
                   (po_signal o)) w) as Hout.
  cbv zeta in Hout. rewrite Hpath in Hout. cbn [andb] in Hout.
  replace (ky_request (a_kyBase a) (strip_slash path)
             (mkPostOpts (po_json o) (po_body o) (po_headers o)
                (po_signal o))) with req in Hout
    by (destruct o; reflexivity).
  unfold post. destruct (ok (fetch H req)); [exact Hout|].
  destruct Hout as (e & w' & Hout & Hheap & _). eauto.
Qed.

(** The shape of every method: [getApi], one [post], then reading the
    answer with [k], which leaves the world alone. *)
Lemma call_cases {A : Type} (this : OpenAIClient) (opts : option RequestOpts)
    (path : string) (po : PostOpts) (k : Response -> M A) (w : world) :
  starts_with_slash (strip_slash path) = false ->
  (∀ r w', (k r w').2 = w') ->
  ∃ a h,
    match opts with
    | Some o => ∃ l arr, a = adapter_of (extend_args (api this) o) l arr
    | None => a = api this ∧ h = heap w
    end
    ∧ let call := (a ← getApi this opts; r ← post H a path po; k r) in
      let req := ky_request (a_kyBase a) (strip_slash path) po in
      let w1 := mkWorld h (sent w ++ [req]) (normalized w) in
      sent (call w).2 = sent w ++ [req]
      ∧ heap (call w).2 = h
      ∧ (ok (fetch H req) = true -> call w = ((k (fetch H req) w1).1, w1))
      ∧ (ok (fetch H req) = false -> throws call w).
Proof.
  intros Hpath Hk.
  destruct (getApi_returns this opts w) as (a & h & Hget & Ha).
  exists a, h. split.
  { destruct opts as [o|]; [exact Ha|]. split; [exact Ha|].
    apply (f_equal (λ p, heap p.2)) in Hget. simpl in Hget.
    symmetry. exact Hget. }
  intros call req w1.
  assert (Hcall : call w
                  = (r ← post H a path po; k r)
                      (mkWorld h (sent w) (normalized w))).
  { unfold call. rewrite M_bind_unfold, Hget. reflexivity. }
  rewrite Hcall, M_bind_unfold.
  pose proof (post_outcome a path po (mkWorld h (sent w) (normalized w))
                Hpath) as Hp.
  cbv zeta in Hp. cbn [heap sent normalized] in Hp.
  fold req in Hp. fold w1 in Hp.
  pose proof (post_sent H a path po (mkWorld h (sent w) (normalized w))
                Hpath) as Hs.
  cbn [sent] in Hs. fold req in Hs.
  destruct (ok (fetch H req)).
  - rewrite Hp.
    rewrite (surjective_pairing (k (fetch H req) w1)), Hk.
    repeat split; try reflexivity. discriminate.
  - destruct Hp as (e & w' & Hp & Hh). rewrite Hp in Hs |- *.
    repeat split; try assumption; try discriminate.
    intros _. unfold throws. rewrite Hcall, M_bind_unfold, Hp. eauto.
Qed.

Lemma res_text_value (res : Response) (w : world) (t : string) :
  text res = Normal t -> res_text res w = (Normal t, w).
Proof. intros Ht. unfold res_text, native. rewrite Ht. reflexivity. Qed.

Lemma res_json_value (res : Response) (w : world) (t : string) :
  text res = Normal t ->
  res_json H res w
  = (match JSON_parse H t with
     | Normal v => Normal v
     | Throw e => Throw (Native e)
     end, w).
Proof.
  intros Ht. unfold res_json.
  rewrite M_bind_unfold, (res_text_value _ _ _ Ht).
  unfold native. destruct (JSON_parse H t); reflexivity.
Qed.



(** X16. [createSpeech] sends the params as JSON to [audio/speech] and returns
    the body of a 2xx answer as it is: nothing parses it. *)
Theorem createSpeech_returns_the_body (this : OpenAIClient)
    (params : list (string * json)) (opts : option RequestOpts) (w : world) :
  ∃ req,
    sent (createSpeech H this params opts w).2 = sent w ++ [req]
    ∧ req_path req = "audio/speech"
    ∧ req_json req = Some (JObject params)
    ∧ ∀ t, ok (fetch H req) = true -> text (fetch H req) = Normal t ->
        (createSpeech H this params opts w).1 = Normal t.
Proof.
  destruct (call_cases this opts "audio/speech" (json_opts (JObject params))
              res_text w eq_refl res_text_world)
    as (a & h & _ & Hsent & _ & Hok & _).
  eexists. split; [exact Hsent|].
  split; [reflexivity|]. split; [reflexivity|].
  intros t Hokt Ht. unfold createSpeech. rewrite (Hok Hokt). cbn [fst snd].
  rewrite (res_text_value _ _ _ Ht). reflexivity.
Qed.

(** X17. With a file, [createTranscription] sends the form, and no JSON, to
    [audio/transcriptions]; of a 2xx answer whose body reads as [t] it
    returns [t] itself when the response format asked for is [text], [srt]
    or [vtt], and what [JSON.parse] makes of [t] for every other format and
    for none. *)
Theorem createTranscription_response_format (this : OpenAIClient)
    (params : TranscriptionParams) (opts : option RequestOpts) (w : world) :
  truthy (tp_file params) = true ->
  ∃ req,
    sent (createTranscription H this params opts w).2 = sent w ++ [req]
    ∧ req_path req = "audio/transcriptions"
    ∧ req_json req = None
    ∧ req_body req = Some (transcription_form params)
    ∧ ∀ t, ok (fetch H req) = true -> text (fetch H req) = Normal t ->
        (createTranscription H this params opts w).1
        = if bool_decide (tp_response_format params ∈ [Some "text"; Some "srt"; Some "vtt"])
          then Normal (TranscriptionText t)
          else match JSON_parse H t with
               | Normal v => Normal (TranscriptionJson v)
               | Throw e => Throw (Native e)
               end.
Proof.
  intros Hfile.
  destruct (call_cases this opts "audio/transcriptions"
              (mkPostOpts None (Some (transcription_form params)) (Some ∅)
                 None)
              (λ resp,
                 if bool_decide
                      (tp_response_format params = Some "text"
                       ∨ tp_response_format params = Some "srt"
                       ∨ tp_response_format params = Some "vtt")
                 then t ← res_text resp; mret (TranscriptionText t)
                 else v ← res_json H resp; mret (TranscriptionJson v))
              w eq_refl
              (transcription_reader_world H (tp_response_format params)))
    as (a & h & _ & Hsent & _ & Hok & _).
  unfold createTranscription. rewrite Hfile. cbn [negb].
  eexists. split; [exact Hsent|].
  split; [reflexivity|]. split; [reflexivity|]. split; [reflexivity|].
  intros t Hokt Ht. rewrite (Hok Hokt). cbn [fst snd].
  case_bool_decide as Hrf; case_bool_decide as Hrf'.
  - rewrite M_bind_unfold, (res_text_value _ _ _ Ht). reflexivity.
  - exfalso. apply Hrf'. rewrite !elem_of_cons. tauto.
  - exfalso. apply Hrf. rewrite !elem_of_cons, elem_of_nil in Hrf'. tauto.
  - rewrite M_bind_unfold, (res_json_value _ _ _ Ht).
    destruct (JSON_parse H t); reflexivity.
Qed.



Lemma call_heap {A : Type} (this : OpenAIClient) (path : string)
    (po : PostOpts) (k : Response -> M A) (w : world) :
  starts_with_slash (strip_slash path) = false ->
  (∀ r w', (k r w').2 = w') ->
  heap ((a ← getApi this None; r ← post H a path po; k r) w).2 = heap w.
Proof.
  intros Hpath Hk.
  destruct (call_cases this None path po k w Hpath Hk)
    as (a & h & (_ & ->) & _ & Hheap & _).
  exact Hheap.
Qed.

(** X19. A call without per-call options makes no adapter and pushes no hook:
    whatever the answer, every [hooks] object is afterwards as it was
    before. *)
Theorem calls_without_options_keep_the_heap (this : OpenAIClient)
    (params : list (string * json)) (tparams : TranscriptionParams)
    (w : world) :
  heap (createChatCompletion H this params None w).2 = heap w
  ∧ heap (streamChatCompletion H this params None w).2 = heap w
  ∧ heap (createCompletions H this params None w).2 = heap w
  ∧ heap (streamCompletion H this params None w).2 = heap w
  ∧ heap (createEmbeddings H this params None w).2 = heap w
  ∧ heap (createModeration H this params None w).2 = heap w
  ∧ heap (createSpeech H this params None w).2 = heap w
  ∧ heap (createTranscription H this tparams None w).2 = heap w.
Proof.
  repeat split;
    try (apply call_heap; [reflexivity|]; intros r w';
         first [apply res_json_world | apply res_text_world
               |apply pipeThrough_world]).
  unfold createTranscription. destruct (truthy (tp_file tparams)); cbn [negb].
  - apply call_heap; [reflexivity|].
    apply (transcription_reader_world H (tp_response_format tparams)).
  - reflexivity.
Qed.

(** X20. A header of the per-call options is on the request of
    [createTranscription], which passes a headers object of its own, an
    empty one, to [post]. The other seven methods pass none: [post] hands ky
    [headers: undefined], and the request carries no header of the instance
    at all, so with them a per-call header is lost, and so are the headers
    of the client. *)
Theorem per_call_headers_on_the_request (this : OpenAIClient)
    (params : list (string * json)) (tparams : TranscriptionParams)
    (hs : gmap string string) (s : option AbortSignal) (k v : string)
    (w : world) :
  hs !! k = Some v ->
  truthy (tp_file tparams) = true ->
  let opts := Some (mkRequestOpts (Some hs) s) in
  (∃ req,
      sent (createTranscription H this tparams opts w).2 = sent w ++ [req]
      ∧ req_headers req !! k = Some v)
  ∧ Forall (λ w', ∃ req, sent w' = sent w ++ [req] ∧ req_headers req = ∅)
      [(createChatCompletion H this params opts w).2;
       (streamChatCompletion H this params opts w).2;
       (createCompletions H this params opts w).2;
       (streamCompletion H this params opts w).2;
       (createEmbeddings H this params opts w).2;
       (createModeration H this params opts w).2;
       (createSpeech H this params opts w).2].
Proof.
  intros Hk Hfile opts. split.
  - destruct (call_cases this opts "audio/transcriptions"
                (mkPostOpts None (Some (transcription_form tparams)) (Some ∅)
                   None)
                (λ resp,
                   if bool_decide
                        (tp_response_format tparams = Some "text"
                         ∨ tp_response_format tparams = Some "srt"
                         ∨ tp_response_format tparams = Some "vtt")
                   then t ← res_text resp; mret (TranscriptionText t)
                   else v ← res_json H resp; mret (TranscriptionJson v))
                w eq_refl
                (transcription_reader_world H (tp_response_format tparams)))
      as (a & h & (l & arr & ->) & Hsent & _).
    unfold createTranscription. rewrite Hfile. cbn [negb].
    eexists. split; [exact Hsent|].
    cbn [ky_request req_headers a_kyBase adapter_of ky_headers po_headers].
    rewrite (left_id_L ∅ (∪)).
    unfold instance_headers. do 3 apply lookup_union_Some_l.
    cbn [extend_args kyOptions default from_option id ko_headers ro_headers].
    apply lookup_union_Some_l. exact Hk.
  - assert (Hnone : ∀ (A : Type) path json (k : Response -> M A),
              starts_with_slash (strip_slash path) = false ->
              (∀ r w', (k r w').2 = w') ->
              ∃ req,
                sent ((a ← getApi this opts;
                       r ← post H a path (json_opts json); k r) w).2
                = sent w ++ [req]
                ∧ req_headers req = ∅).
    { intros A path json k0 Hpath Hk0.
      destruct (call_cases this opts path (json_opts json) k0 w Hpath Hk0)
        as (a & h & _ & Hsent & _).
      eexists. split; [exact Hsent|reflexivity]. }
    repeat first
      [ apply Forall_nil_2
      | apply Forall_cons_2;
        [ apply Hnone;
          [ reflexivity
          | intros r w';
            first [apply res_json_world | apply res_text_world
                  |apply pipeThrough_world] ] | ] ].
Qed.

End ClientMore.

Lemma createTranscription_response_format_witness :
  let H := reference_host (server_ok "WEBVTT") in
  let params :=
    mkTranscriptionParams (VString "recording.wav") "whisper-1" None None
      (Some "vtt") None None None None None in
  (createTranscription H example_client params None example_world).1
  = Normal (TranscriptionText "WEBVTT").
Proof.
  intros H params.
  destruct (createTranscription_response_format H example_client params None
              example_world eq_refl) as (req & _ & _ & _ & _ & Hret).
  exact (Hret "WEBVTT" eq_refl eq_refl).
Defined.


Lemma per_call_headers_on_the_request_witness :
  let H := reference_host (server_ok "{}") in
  let opts := Some (mkRequestOpts (Some {["X-Trace" := "42"]}) None) in
  (∃ req,
      sent (createTranscription H example_client
              (params_with_file (VString "recording.wav")) opts
              example_world).2 = sent example_world ++ [req]
      ∧ req_headers req !! "X-Trace" = Some "42")
  ∧ ∃ req,
      sent (createChatCompletion H example_client [] opts example_world).2
      = sent example_world ++ [req]
      ∧ req_headers req = ∅.
Proof.
  intros H opts.
  destruct (per_call_headers_on_the_request H example_client []
              (params_with_file (VString "recording.wav"))
              {["X-Trace" := "42"]} None "X-Trace" "42" example_world)
    as [Hform Hjson]; [reflexivity|reflexivity|].
  split; [exact Hform|]. exact (Forall_inv Hjson).
Defined.

(** ** The constructor *)

(** X21. The key of the config wins over the one of the environment, which is
    used when the config has none or an empty one; with neither, the
    constructor throws and makes nothing. Making a client sends no
    request. *)
Theorem constructor_key_precedence (env : gmap string string)
    (opts : ConfigOpts) (w : world) :
  let cfg := default "" (co_apiKey opts) in
  let var := default "" (env !! "OPENAI_API_KEY") in
  (cfg ≠ "" ->
   ∃ c w', new_OpenAIClient env opts w = (Normal c, w')
           ∧ a_apiKey (api c) = cfg ∧ sent w' = sent w)
  ∧ (cfg = "" -> var ≠ "" ->
     ∃ c w', new_OpenAIClient env opts w = (Normal c, w')
             ∧ a_apiKey (api c) = var ∧ sent w' = sent w)
  ∧ (cfg = "" -> var = "" ->
     ∃ e, new_OpenAIClient env opts w = (Throw (Native e), w)
          ∧ strip_prefix "Missing OpenAI API key." (message e) ≠ None).
Proof.
  intros cfg var.
  assert (Hkey : default "" (opt_or (co_apiKey opts) (env !! "OPENAI_API_KEY"))
                 = if str_truthy cfg then cfg else var).
  { unfold opt_or, cfg, var. destruct (co_apiKey opts) as [c|]; simpl;
      [destruct (str_truthy c); reflexivity|reflexivity]. }
  assert (Hrun : ∀ key,
            default "" (opt_or (co_apiKey opts) (env !! "OPENAI_API_KEY")) = key ->
            str_truthy key = true ->
            ∃ c w', new_OpenAIClient env opts w = (Normal c, w')
                    ∧ a_apiKey (api c) = key ∧ sent w' = sent w).
  { intros key Hd Ht. unfold new_OpenAIClient. rewrite Hd, Ht. cbn [negb].
    rewrite M_bind_unfold.
    destruct (createApiInstance_returns
                (mkApiArgs key (co_baseUrl opts)
                   (opt_or (co_organizationId opts) (env !! "OPENAI_ORG_ID"))
                   (co_kyOptions opts)) w) as (l & arr & h & ->).
    eexists _, _. split; [reflexivity|]. split; reflexivity. }
  split; [|split].
  - intros Hcfg. apply Hrun; [|apply str_truthy_ne, Hcfg].
    rewrite Hkey, (str_truthy_ne _ Hcfg). reflexivity.
  - intros Hcfg Hvar. apply Hrun; [|apply str_truthy_ne, Hvar].
    rewrite Hkey, Hcfg. reflexivity.
  - intros Hcfg Hvar. unfold new_OpenAIClient.
    rewrite Hkey, Hcfg, Hvar. cbn [str_truthy negb].
    eexists. split; [reflexivity|]. vm_compute. discriminate.
Qed.

Lemma constructor_key_precedence_witness :
  (∃ c w',
      new_OpenAIClient {["OPENAI_API_KEY" := "sk-env"]}
        (mkConfigOpts (Some "sk-config") None None None) empty_world
      = (Normal c, w')
      ∧ a_apiKey (api c) = "sk-config" ∧ sent w' = sent empty_world)
  ∧ (∃ c w',
      new_OpenAIClient {["OPENAI_API_KEY" := "sk-env"]}
        (mkConfigOpts (Some "") None None None) empty_world
      = (Normal c, w')
      ∧ a_apiKey (api c) = "sk-env" ∧ sent w' = sent empty_world)
  ∧ ∃ e, new_OpenAIClient ∅ (mkConfigOpts None None None None) empty_world
         = (Throw (Native e), empty_world)
         ∧ strip_prefix "Missing OpenAI API key." (message e) ≠ None.
Proof.
  destruct (constructor_key_precedence {["OPENAI_API_KEY" := "sk-env"]}
              (mkConfigOpts (Some "sk-config") None None None) empty_world)
    as (Hconfig & _ & _).
  destruct (constructor_key_precedence {["OPENAI_API_KEY" := "sk-env"]}
              (mkConfigOpts (Some "") None None None) empty_world)
    as (_ & Hvar & _).
  destruct (constructor_key_precedence ∅ (mkConfigOpts None None None None)
              empty_world) as (_ & _ & Hnone).
  split; [|split].
  - apply Hconfig. discriminate.
  - apply Hvar; [reflexivity|discriminate].
  - apply Hnone; reflexivity.
Defined.

(** ** The form of [createTranscription] *)

Lemma form_getAll_snoc (k k' : string) (v : form_value) (form : FormData) :
  form_getAll k (form ++ [(k', v)])
  = form_getAll k form ++ (if decide (k' = k) then [v] else []).
Proof.
  unfold form_getAll, FormData. rewrite filter_app, fmap_app. f_equal.
  rewrite filter_cons, filter_nil. cbn [fst].
  destruct (decide (k' = k)); reflexivity.
Qed.

Lemma form_getAll_append_if (k k' : string) (x : option string)
    (form : FormData) :
  form_getAll k (append_if k' x form)
  = form_getAll k form
    ++ (if decide (k' = k)
        then (if str_truthy (default "" x) then [FormString (default "" x)]
              else [])
        else []).
Proof.
  unfold append_if. destruct x as [v|]; cbn [default from_option id].
  - destruct (str_truthy v); [apply form_getAll_snoc|].
    destruct (decide (k' = k)); rewrite app_nil_r; reflexivity.
  - cbn [str_truthy String.eqb negb].
    destruct (decide (k' = k)); rewrite app_nil_r; reflexivity.
Qed.

Lemma form_getAll_append_each (k k' : string) (xs : option (list string))
    (form : FormData) :
  form_getAll k (append_each k' xs form)
  = form_getAll k form
    ++ (if decide (k' = k) then FormString <$> default [] xs else []).
Proof.
  unfold append_each, form_getAll, FormData.
  rewrite filter_app, fmap_app. f_equal.
  induction (default [] xs) as [|x l IH]; cbn [map].
  - destruct (decide (k' = k)); reflexivity.
  - rewrite filter_cons. cbn [fst].
    destruct (decide (k' = k)); [rewrite fmap_cons, IH|exact IH]; reflexivity.
Qed.

Lemma form_getAll_option {A : Type} (k k' : string) (x : option A)
    (e : A -> form_value) (form : FormData) :
  form_getAll k (match x with
                 | Some t => form ++ [(k', e t)]
                 | None => form
                 end)
  = form_getAll k form ++ (if decide (k' = k) then e <$> option_list x else []).
Proof.
  destruct x as [t|]; [apply form_getAll_snoc|].
  destruct (decide (k' = k)); rewrite app_nil_r; reflexivity.
Qed.

(** What the form holds under any name [k]. *)
Lemma transcription_form_getAll (k : string) (params : TranscriptionParams) :
  let text_field (x : option string) : list form_value :=
    if str_truthy (default "" x) then [FormString (default "" x)] else [] in
  form_getAll k (transcription_form params)
  = (if decide ("file" = k) then [file_entry (tp_file params)] else [])
    ++ (if decide ("model" = k) then [FormString (tp_model params)] else [])
    ++ (if decide ("language" = k) then text_field (tp_language params)
        else [])
    ++ (if decide ("prompt" = k) then text_field (tp_prompt params) else [])
    ++ (if decide ("response_format" = k)
        then text_field (tp_response_format params) else [])
    ++ (if decide ("temperature" = k)
        then (λ t, FormToString (VNumber t))
             <$> option_list (tp_temperature params)
        else [])
    ++ (if decide ("timestamp_granularities[]" = k)
        then FormString <$> default [] (tp_timestamp_granularities params)
        else [])
    ++ (if decide ("include[]" = k)
        then FormString <$> default [] (tp_include params) else [])
    ++ (if decide ("stream" = k)
        then (λ b, FormToString (VBool b)) <$> option_list (tp_stream params)
        else [])
    ++ (if decide ("chunking_strategy" = k)
        then match tp_chunking_strategy params with
             | Some (VString cs) => [FormString cs]
             | Some VUndefined | Some VNull | None => []
             | Some cs => [FormJSON cs]
             end
        else []).
Proof.
  intros text_field. unfold transcription_form. cbv zeta.
  set (form8 := match tp_stream params with
                | Some b => _ ++ [("stream", FormToString (VBool b))]
                | None => _
                end).
  assert (Hchunk :
    form_getAll k
      (match tp_chunking_strategy params with
       | Some (VString cs) => form8 ++ [("chunking_strategy", FormString cs)]
       | Some VUndefined | Some VNull | None => form8
       | Some cs => form8 ++ [("chunking_strategy", FormJSON cs)]
       end)
    = form_getAll k form8
      ++ (if decide ("chunking_strategy" = k)
          then match tp_chunking_strategy params with
               | Some (VString cs) => [FormString cs]
               | Some VUndefined | Some VNull | None => []
               | Some cs => [FormJSON cs]
               end
          else [])).
  { destruct (tp_chunking_strategy params) as [[]|];
      first [apply form_getAll_snoc
            |destruct (decide ("chunking_strategy" = k)); rewrite app_nil_r;
             reflexivity]. }
  rewrite Hchunk. unfold form8.
  rewrite (form_getAll_option k "stream" (tp_stream params)
             (λ b, FormToString (VBool b))).
  rewrite !form_getAll_append_each.
  rewrite (form_getAll_option k "temperature" (tp_temperature params)
             (λ t, FormToString (VNumber t))).
  rewrite !form_getAll_append_if, form_getAll_snoc.
  rewrite <- !app_assoc. f_equal.
  unfold form_getAll, FormData. rewrite filter_cons, filter_nil. cbn [fst].
  destruct (decide ("file" = k)); reflexivity.
Qed.

(** X22. The form, field by field. The file and the model are there once each;
    a language, prompt or response format is there when it is not empty; the
    temperature and the stream flag are there whenever they are given, also
    as [0] and as [false]; the granularities and the includes are there one
    entry per element, in their order; and there is no entry under any other
    name. *)
Theorem transcription_form_fields (params : TranscriptionParams) :
  let form := transcription_form params in
  let text_field (x : option string) : list form_value :=
    if str_truthy (default "" x) then [FormString (default "" x)] else [] in
  form_getAll "file" form = [file_entry (tp_file params)]
  ∧ form_getAll "model" form = [FormString (tp_model params)]
  ∧ form_getAll "language" form = text_field (tp_language params)
  ∧ form_getAll "prompt" form = text_field (tp_prompt params)
  ∧ form_getAll "response_format" form
    = text_field (tp_response_format params)
  ∧ form_getAll "temperature" form
    = (λ t, FormToString (VNumber t)) <$> option_list (tp_temperature params)
  ∧ form_getAll "timestamp_granularities[]" form
    = FormString <$> default [] (tp_timestamp_granularities params)
  ∧ form_getAll "include[]" form
    = FormString <$> default [] (tp_include params)
  ∧ form_getAll "stream" form
    = (λ b, FormToString (VBool b)) <$> option_list (tp_stream params)
  ∧ form_getAll "chunking_strategy" form
    = match tp_chunking_strategy params with
      | Some (VString cs) => [FormString cs]
      | Some VUndefined | Some VNull | None => []
      | Some cs => [FormJSON cs]
      end
  ∧ ∀ k, k ∉ ["file"; "model"; "language"; "prompt"; "response_format";
              "temperature"; "timestamp_granularities[]"; "include[]";
              "stream"; "chunking_strategy"] ->
         form_getAll k form = [].
Proof.
  intros form text_field. unfold form.
  pose proof (λ k, transcription_form_getAll k params) as Hall.
  cbv zeta in Hall. fold text_field in Hall.
  repeat (split;
          [rewrite Hall;
           first [reflexivity
                 |match goal with |- _ = ?X => exact (app_nil_r X) end]|]).
  intros k Hk. rewrite Hall. rewrite !not_elem_of_cons in Hk.
  destruct Hk as (? & ? & ? & ? & ? & ? & ? & ? & ? & ? & _).
  rewrite !decide_False by congruence. reflexivity.
Qed.

(** X23. Every file part has a name that is not empty: a missing or empty
    name becomes [audio]. A Blob that the client makes itself, from an
    object with [data] or from a buffer, has a content type that is not
    empty: a missing or empty type becomes [application/octet-stream]. A
    Blob of the caller is sent as the object it is, with the type it has,
    empty or not. A value goes as it is exactly when it is no Blob, no
    buffer and has no [data]. *)
Theorem file_entry_parts (file : js_value) :
  match file_entry file with
  | FormBlob blob filename =>
      blob = file ∧ instanceof_Blob file = true ∧ truthy filename = true
  | FormNewBlob part type filename =>
      (part = prop "data" file ∨ part = file ∧ is_buffer file = true)
      ∧ truthy part = true ∧ truthy type = true ∧ truthy filename = true
  | FormToString v =>
      v = file ∧ instanceof_Blob file = false ∧ is_buffer file = false
      ∧ truthy (prop "data" file) = false
  | _ => False
  end.
Proof.
  assert (Hor : ∀ a s, str_truthy s = true ->
                       truthy (js_or a (VString s)) = true).
  { intros a s Hs. unfold js_or. destruct (truthy a) eqn:Ha; assumption. }
  unfold file_entry.
  destruct (instanceof_Blob file) eqn:Hblob; cbn [negb andb].
  - split; [reflexivity|]. split; [reflexivity|]. apply Hor. reflexivity.
  - destruct (truthy (prop "data" file)) eqn:Hdata.
    + split; [left; reflexivity|]. split; [exact Hdata|].
      split; apply Hor; reflexivity.
    + destruct (is_buffer file) eqn:Hbuf.
      * split; [right; split; reflexivity|].
        split; [destruct file; try discriminate; reflexivity|].
        split; reflexivity.
      * repeat split.
Qed.
